(** * Smart Todo App: the task-list controller of [src/App.tsx]

    A shallow embedding of the response normalizer ([ensureArray]), the two
    classifier operations ([categorizeTodo], [prioritizeTodo]), the controller
    operations ([loadTodos], [addTodo], [toggleTodo], [deleteTodo]) and the
    derived filtered view ([filteredTodos]), followed by the properties of the
    specification that concern them.

    Conventions of the embedding.
    - A JavaScript string is a [string] read as a sequence of code units
      below 256 (the Latin-1 range); [trim] and [toLowerCase] are the
      ECMAScript operations restricted to that range. The module [Utf16]
      widens the search test of the filtered view to UTF-16 code units,
      where lower-casing is no longer a code unit by code unit map.
    - A JavaScript number is an IEEE 754 value, a [spec_float].
    - Every awaited call to a collaborator (store, text generation) settles
      with an [outcome] supplied by the environment; the calls an operation
      issues and the notifications it shows are appended to a trace. *)

From Stdlib Require Import String Ascii List Bool Arith ZArith Lia SpecFloat.
From ExtLib Require Import Structures.Monad Structures.MonadExc.
Import ListNotations.
Import MonadNotation.
Local Open Scope string_scope.
Local Open Scope list_scope.
Local Open Scope monad_scope.
Local Open Scope nat_scope.

(* ===================================================================== *)
(** ** JavaScript strings *)
(* ===================================================================== *)

Module JsString.

(** ECMAScript WhiteSpace and LineTerminator code points below 256:
    TAB, LF, VT, FF, CR, SPACE and NO-BREAK SPACE. *)
Definition is_whitespace (c : ascii) : bool :=
  let n := nat_of_ascii c in
  ((9 <=? n) && (n <=? 13)) || (n =? 32) || (n =? 160).

Fixpoint trimStart (s : string) : string :=
  match s with
  | EmptyString => EmptyString
  | String c s' => if is_whitespace c then trimStart s' else s
  end.

Fixpoint trimEnd (s : string) : string :=
  match s with
  | EmptyString => EmptyString
  | String c s' =>
      match trimEnd s' with
      | EmptyString => if is_whitespace c then EmptyString else String c EmptyString
      | r => String c r
      end
  end.

(** [String.prototype.trim] *)
Definition trim (s : string) : string := trimEnd (trimStart s).

(** Upper-case letters below 256: A-Z, and the Latin-1 letters
    U+00C0..U+00DE except the multiplication sign U+00D7. Each has its
    lower-case form 32 code points above. *)
Definition is_upper (c : ascii) : bool :=
  let n := nat_of_ascii c in
  ((65 <=? n) && (n <=? 90))
  || ((192 <=? n) && (n <=? 214))
  || ((216 <=? n) && (n <=? 222)).

Definition lower_char (c : ascii) : ascii :=
  if is_upper c then ascii_of_nat (nat_of_ascii c + 32) else c.

(** [String.prototype.toLowerCase] *)
Fixpoint toLowerCase (s : string) : string :=
  match s with
  | EmptyString => EmptyString
  | String c s' => String (lower_char c) (toLowerCase s')
  end.

(** [String.prototype.includes]: does [t] occur in [s] at some index? *)
Fixpoint includes (s t : string) : bool :=
  String.prefix t s ||
  match s with
  | EmptyString => false
  | String _ s' => includes s' t
  end.

(** A string is falsy exactly when it is empty. *)
Definition truthy (s : string) : bool :=
  match s with EmptyString => false | String _ _ => true end.

End JsString.

(* ===================================================================== *)
(** ** JavaScript values *)
(* ===================================================================== *)

(** Primitive values, as the value of a record field can be at run time. *)
Inductive jsprim : Type :=
| PUndefined
| PNull
| PBool (b : bool)
| PNumber (n : spec_float)
| PString (s : string).

(** The values a response of type [unknown] can take. The elements of an
    array are of the type [T] the caller casts them to. The properties of
    an object are listed in the order [Object.values] enumerates them. *)
Inductive jsvalue (T : Type) : Type :=
| JPrim (p : jsprim)
| JFunction
| JArray (items : list T)
| JObject (props : list (string * jsvalue T)).

Arguments JPrim {T} p.
Arguments JFunction {T}.
Arguments JArray {T} items.
Arguments JObject {T} props.

Inductive jstype : Type :=
| TyUndefined | TyObject | TyBoolean | TyNumber | TyString | TyFunction.

Definition jstype_eqb (a b : jstype) : bool :=
  match a, b with
  | TyUndefined, TyUndefined | TyObject, TyObject | TyBoolean, TyBoolean
  | TyNumber, TyNumber | TyString, TyString | TyFunction, TyFunction => true
  | _, _ => false
  end.

Definition typeof_prim (p : jsprim) : jstype :=
  match p with
  | PUndefined => TyUndefined
  | PNull => TyObject
  | PBool _ => TyBoolean
  | PNumber _ => TyNumber
  | PString _ => TyString
  end.

Definition typeof {T} (v : jsvalue T) : jstype :=
  match v with
  | JPrim p => typeof_prim p
  | JFunction => TyFunction
  | JArray _ | JObject _ => TyObject
  end.

(** ToBoolean: undefined, null, false, 0, NaN and the empty string are falsy. *)
Definition truthy_prim (p : jsprim) : bool :=
  match p with
  | PUndefined | PNull => false
  | PBool b => b
  | PNumber n =>
      match n with
      | S754_zero _ | S754_nan => false
      | _ => true
      end
  | PString s => JsString.truthy s
  end.

Definition truthy {T} (v : jsvalue T) : bool :=
  match v with
  | JPrim p => truthy_prim p
  | _ => true
  end.

Definition isArray {T} (v : jsvalue T) : bool :=
  match v with JArray _ => true | _ => false end.

(** The elements of a value known to be an array (the cast [as T[]]). *)
Definition asArray {T} (v : jsvalue T) : list T :=
  match v with JArray items => items | _ => [] end.

(** Property read [o.key] on an object: the value, or undefined. *)
Fixpoint lookup_prop {T} (props : list (string * jsvalue T)) (key : string)
  : jsvalue T :=
  match props with
  | [] => JPrim PUndefined
  | (k, v) :: rest => if String.eqb k key then v else lookup_prop rest key
  end.

Definition get_prop {T} (v : jsvalue T) (key : string) : jsvalue T :=
  match v with
  | JObject props => lookup_prop props key
  | _ => JPrim PUndefined
  end.

(** [Object.values] *)
Definition object_values {T} (v : jsvalue T) : list (jsvalue T) :=
  match v with
  | JObject props => map snd props
  | _ => []
  end.

(* ===================================================================== *)
(** ** Response normalizer *)
(* ===================================================================== *)

(** The loop [for (const value of ...) if (Array.isArray(value)) return value],
    falling through to [return fallback]. *)
Fixpoint first_array {T} (values : list (jsvalue T)) (fallback : list T)
  : list T :=
  match values with
  | [] => fallback
  | value :: rest =>
      if isArray value then asArray value else first_array rest fallback
  end.

Definition ensureArray {T} (response : jsvalue T) (fallback : list T) : list T :=
  if isArray response then asArray response
  else if truthy response && jstype_eqb (typeof response) TyObject then
    if isArray (get_prop response "data") then asArray (get_prop response "data")
    else first_array (object_values response) fallback
  else fallback.

(** The default value [[]] of the parameter [fallback]. *)
Definition ensureArray0 {T} (response : jsvalue T) : list T :=
  ensureArray response [].

(** Strict equality [===] on primitive values (IEEE comparison on numbers). *)
Definition strict_equals (a b : jsprim) : bool :=
  match a, b with
  | PUndefined, PUndefined => true
  | PNull, PNull => true
  | PBool x, PBool y => Bool.eqb x y
  | PNumber x, PNumber y => SFeqb x y
  | PString x, PString y => String.eqb x y
  | _, _ => false
  end.

(** SameValueZero, the key equality of [Map]: as [===] but NaN equals NaN. *)
Definition same_value_zero (a b : jsprim) : bool :=
  match a, b with
  | PNumber x, PNumber y =>
      match x, y with
      | S754_nan, S754_nan => true
      | _, _ => SFeqb x y
      end
  | _, _ => strict_equals a b
  end.

(* ===================================================================== *)
(** ** An insertion-ordered [Map] *)
(* ===================================================================== *)

Module JsMap.

Section WithValues.
Context {V : Type}.

(** The entries of a [Map], in insertion order. *)
Definition t := list (jsprim * V).

(** [Map.prototype.set]: an existing key keeps its position and gets the
    new value; a new key is appended. *)
Fixpoint set (k : jsprim) (v : V) (m : t) : t :=
  match m with
  | [] => [(k, v)]
  | (k', v') :: m' =>
      if same_value_zero k' k then (k', v) :: m'
      else (k', v') :: set k v m'
  end.

(** [new Map(entries)] *)
Definition of_entries (entries : list (jsprim * V)) : t :=
  fold_left (fun m e => set (fst e) (snd e) m) entries [].

(** [Array.from(m.values())] *)
Definition values (m : t) : list V := map snd m.

Definition keys (m : t) : list jsprim := map fst m.
End WithValues.

End JsMap.

(* ===================================================================== *)
(** ** Data model *)
(* ===================================================================== *)

Module Todo.
(** [interface Todo]. The field [id] is held as the run-time value it has
    in a record coming from the store, which [loadTodos] tests with
    [typeof]; [due_date] is optional. *)
Record t : Type := mk {
  id : jsprim;
  title : string;
  description : string;
  category : string;
  priority : string;
  completed : bool;
  created_at : string;
  due_date : option string;
  user_id : string
}.

(** The object spread [{ ...todo, completed }]. *)
Definition with_completed (todo : t) (c : bool) : t :=
  mk (id todo) (title todo) (description todo) (category todo)
     (priority todo) c (created_at todo) (due_date todo) (user_id todo).
End Todo.

Module User.
Record t : Type := mk { id : string; email : string }.
End User.

Module Category.
(** An entry of [categories] or [priorities] (the icon is presentation). *)
Record t : Type := mk { id : string; name : string; color : string }.
End Category.

Definition categories : list Category.t :=
  [ Category.mk "work" "Work" "bg-blue-100 text-blue-800";
    Category.mk "personal" "Personal" "bg-pink-100 text-pink-800";
    Category.mk "health" "Health" "bg-green-100 text-green-800";
    Category.mk "home" "Home" "bg-yellow-100 text-yellow-800";
    Category.mk "learning" "Learning" "bg-purple-100 text-purple-800";
    Category.mk "shopping" "Shopping" "bg-orange-100 text-orange-800";
    Category.mk "other" "Other" "bg-gray-100 text-gray-800" ].

Definition priorities : list Category.t :=
  [ Category.mk "low" "Low" "bg-green-100 text-green-800";
    Category.mk "medium" "Medium" "bg-yellow-100 text-yellow-800";
    Category.mk "high" "High" "bg-red-100 text-red-800" ].

(** The closed enums of the data model. *)
Definition category_enum : list string :=
  ["work"; "personal"; "health"; "home"; "learning"; "shopping"; "other"].
Definition priority_enum : list string := ["low"; "medium"; "high"].

(* ===================================================================== *)
(** ** Component state, collaborators and the trace *)
(* ===================================================================== *)

(** The [useState] cells of [App]. *)
Record AppState : Type := mkState {
  todos : list Todo.t;
  user : option User.t;
  newTodo : string;
  newDescription : string;
  searchTerm : string;
  selectedCategory : string;
  isLoading : bool;
  isAddingTodo : bool
}.

Definition initialState : AppState :=
  mkState [] None "" "" "" "all" false false.

Inductive exn : Type :=
| TypeError (message : string)
| Rejection (reason : string).

(** How an awaited promise settles. *)
Inductive outcome (A : Type) : Type :=
| Resolved (a : A)
| Rejected (e : exn).
Arguments Resolved {A} a.
Arguments Rejected {A} e.

(** The calls of the store adapter [blink.db.todos]. *)
Inductive StoreCall : Type :=
| DbList (user_id : string)
| DbCreate (record : Todo.t)
| DbUpdate (id : string) (completed : bool)
| DbDelete (id : string).

(** The two template-literal prompts, by what they embed. *)
Inductive Prompt : Type :=
| CategorizePrompt (title description : string)
| PrioritizePrompt (title description : string).

Inductive Event : Type :=
| EvStore (call : StoreCall)
| EvGenerateText (prompt : Prompt) (maxTokens : nat)
| EvToastSuccess (message : string)
| EvToastError (message : string).

(** The component state, the trace of calls and notifications issued so
    far (oldest first), and what was written with [console.error]. *)
Record World : Type := mkWorld {
  state : AppState;
  trace : list Event;
  console : list (string * exn)
}.

Definition is_update_call (e : Event) : bool :=
  match e with EvStore (DbUpdate _ _) => true | _ => false end.

Definition is_store_call (e : Event) : bool :=
  match e with EvStore _ => true | _ => false end.

(* ===================================================================== *)
(** ** The monad of handlers: state, trace and exceptions *)
(* ===================================================================== *)

Inductive completion (A : Type) : Type :=
| Normal (a : A)
| Throw (e : exn).
Arguments Normal {A} a.
Arguments Throw {A} e.

(** A handler runs from a world to a completion and a world; what it did
    before throwing stays done. *)
Definition M (A : Type) : Type := World -> completion A * World.

#[export] Instance Monad_M : Monad M := {
  ret := fun _ a w => (Normal a, w);
  bind := fun _ _ m k w =>
    match m w with
    | (Normal a, w') => k a w'
    | (Throw e, w') => (Throw e, w')
    end
}.

(** [throw] and [try { ... } catch (error) { ... }] *)
#[export] Instance MonadExc_M : MonadExc exn M := {
  raise := fun _ e w => (Throw e, w);
  catch := fun _ body handler w =>
    match body w with
    | (Normal a, w') => (Normal a, w')
    | (Throw e, w') => handler e w'
    end
}.

(** [try { body } finally { fin }] *)
Definition try_finally {A} (body : M A) (fin : M unit) : M A :=
  fun w =>
    match body w with
    | (r, w1) =>
        match fin w1 with
        | (Normal _, w2) => (r, w2)
        | (Throw e, w2) => (Throw e, w2)
        end
    end.

(** The world a handler leaves. *)
Definition exec {A} (m : M A) (w : World) : World := snd (m w).
(** How a handler completes. *)
Definition eval {A} (m : M A) (w : World) : completion A := fst (m w).

(** The state of the render whose closure the handler is. *)
Definition get_state : M AppState := fun w => (Normal (state w), w).

Definition modify_state (f : AppState -> AppState) : M unit :=
  fun w => (Normal tt, mkWorld (f (state w)) (trace w) (console w)).

Definition emit (e : Event) : M unit :=
  fun w => (Normal tt, mkWorld (state w) (trace w ++ [e]) (console w)).

Definition console_error (label : string) (error : exn) : M unit :=
  fun w => (Normal tt, mkWorld (state w) (trace w) (console w ++ [(label, error)])).

Definition await {A} (o : outcome A) : M A :=
  match o with
  | Resolved a => ret a
  | Rejected e => raise e
  end.

(** The state with one cell replaced. *)
Definition with_todos (l : list Todo.t) (s : AppState) : AppState :=
  mkState l (user s) (newTodo s) (newDescription s)
          (searchTerm s) (selectedCategory s) (isLoading s) (isAddingTodo s).

Definition with_user (u : option User.t) (s : AppState) : AppState :=
  mkState (todos s) u (newTodo s) (newDescription s)
          (searchTerm s) (selectedCategory s) (isLoading s) (isAddingTodo s).

Definition with_newTodo (v : string) (s : AppState) : AppState :=
  mkState (todos s) (user s) v (newDescription s)
          (searchTerm s) (selectedCategory s) (isLoading s) (isAddingTodo s).

Definition with_newDescription (v : string) (s : AppState) : AppState :=
  mkState (todos s) (user s) (newTodo s) v
          (searchTerm s) (selectedCategory s) (isLoading s) (isAddingTodo s).

Definition with_searchTerm (v : string) (s : AppState) : AppState :=
  mkState (todos s) (user s) (newTodo s) (newDescription s)
          v (selectedCategory s) (isLoading s) (isAddingTodo s).

Definition with_selectedCategory (v : string) (s : AppState) : AppState :=
  mkState (todos s) (user s) (newTodo s) (newDescription s)
          (searchTerm s) v (isLoading s) (isAddingTodo s).

Definition with_isLoading (v : bool) (s : AppState) : AppState :=
  mkState (todos s) (user s) (newTodo s) (newDescription s)
          (searchTerm s) (selectedCategory s) v (isAddingTodo s).

Definition with_isAddingTodo (v : bool) (s : AppState) : AppState :=
  mkState (todos s) (user s) (newTodo s) (newDescription s)
          (searchTerm s) (selectedCategory s) (isLoading s) v.

(** The state setters. [setTodos] takes an updater function. *)
Definition setTodos (f : list Todo.t -> list Todo.t) : M unit :=
  modify_state (fun s => with_todos (f (todos s)) s).
Definition setUser (u : option User.t) : M unit := modify_state (with_user u).
Definition setNewTodo (v : string) : M unit := modify_state (with_newTodo v).
Definition setNewDescription (v : string) : M unit :=
  modify_state (with_newDescription v).
Definition setSearchTerm (v : string) : M unit := modify_state (with_searchTerm v).
Definition setSelectedCategory (v : string) : M unit :=
  modify_state (with_selectedCategory v).
Definition setIsLoading (v : bool) : M unit := modify_state (with_isLoading v).
Definition setIsAddingTodo (v : bool) : M unit := modify_state (with_isAddingTodo v).

(** [toast.success] and [toast.error] *)
Definition toast_success (message : string) : M unit := emit (EvToastSuccess message).
Definition toast_error (message : string) : M unit := emit (EvToastError message).

(** A call of the store adapter, awaited. *)
Definition store {A} (call : StoreCall) (settles : outcome A) : M A :=
  emit (EvStore call) ;; await settles.

(** [user.id], a TypeError when [user] is null. *)
Definition user_id_of (u : option User.t) : M string :=
  match u with
  | Some u => ret (User.id u)
  | None => raise (TypeError "Cannot read properties of null (reading 'id')")
  end.

(* ===================================================================== *)
(** ** Task classifier *)
(* ===================================================================== *)

(** What [blink.ai.generateText] resolves to; [text] is read by
    destructuring and may be anything at run time. *)
Record GenerateTextResult : Type := mkGenerated { text : jsprim }.

Definition generateText (prompt : Prompt) (maxTokens : nat)
  (settles : outcome GenerateTextResult) : M GenerateTextResult :=
  emit (EvGenerateText prompt maxTokens) ;; await settles.

(** The method call [text.trim()]: a TypeError unless [text] is a string. *)
Definition call_trim (p : jsprim) : M string :=
  match p with
  | PString s => ret (JsString.trim s)
  | PUndefined =>
      raise (TypeError "Cannot read properties of undefined (reading 'trim')")
  | PNull =>
      raise (TypeError "Cannot read properties of null (reading 'trim')")
  | _ => raise (TypeError "text.trim is not a function")
  end.

(** [list.find(x => x.id === label)], used for its truthiness. *)
Definition find_by_id (table : list Category.t) (label : string) : option Category.t :=
  find (fun x => String.eqb (Category.id x) label) table.

Definition categorizeTodo (settles : outcome GenerateTextResult)
  (title description : string) : M string :=
  catch
    (r <- generateText (CategorizePrompt title description) 50 settles ;;
     trimmed <- call_trim (text r) ;;
     let category := JsString.toLowerCase trimmed in
     ret (match find_by_id categories category with
          | Some _ => category
          | None => "other"
          end))
    (fun error =>
       console_error "Error categorizing todo:" error ;;
       ret "other").

Definition prioritizeTodo (settles : outcome GenerateTextResult)
  (title description : string) : M string :=
  catch
    (r <- generateText (PrioritizePrompt title description) 50 settles ;;
     trimmed <- call_trim (text r) ;;
     let priority := JsString.toLowerCase trimmed in
     ret (match find_by_id priorities priority with
          | Some _ => priority
          | None => "medium"
          end))
    (fun error =>
       console_error "Error prioritizing todo:" error ;;
       ret "medium").

(* ===================================================================== *)
(** ** Task list controller *)
(* ===================================================================== *)

(** The filter of [loadTodos]:
    [typeof t.id === 'string' && t.id.trim() !== ''] *)
Definition valid_id (t : Todo.t) : bool :=
  match Todo.id t with
  | PString s => negb (String.eqb (JsString.trim s) "")
  | _ => false
  end.

(** [Array.from(new Map(validArray.map((t) => [t.id, t])).values())] *)
Definition unique_by_id (validArray : list Todo.t) : list Todo.t :=
  JsMap.values (JsMap.of_entries (map (fun t => (Todo.id t, t)) validArray)).

Definition loadTodos (list_settles : outcome (jsvalue Todo.t)) : M unit :=
  s <- get_state ;;
  try_finally
    (catch
       (setIsLoading true ;;
        uid <- user_id_of (user s) ;;
        response <- store (DbList uid) list_settles ;;
        let todoArray := ensureArray0 response in
        let validArray := filter valid_id todoArray in
        let uniqueArray := unique_by_id validArray in
        setTodos (fun _ => uniqueArray))
       (fun error =>
          console_error "Error loading todos:" error ;;
          toast_error "Failed to load todos"))
    (setIsLoading false).

(** What the environment supplies to one run of [addTodo]: how the two
    text generations and the store call settle, the value of
    [crypto.randomUUID()] and of the two [new Date().toISOString()]. *)
Record AddEnv : Type := mkAddEnv {
  category_settles : outcome GenerateTextResult;
  priority_settles : outcome GenerateTextResult;
  randomUUID : string;
  now_persisted : string;
  now_created : string;
  create_settles : outcome unit
}.

(** [Promise.all] of the two classifier calls, neither of which rejects;
    they settle in the order of the array. *)
Definition classify_both (env : AddEnv) (title description : string)
  : M (string * string) :=
  category <- categorizeTodo (category_settles env) title description ;;
  priority <- prioritizeTodo (priority_settles env) title description ;;
  ret (category, priority).

Definition addTodo (env : AddEnv) : M unit :=
  s <- get_state ;;
  if negb (JsString.truthy (JsString.trim (newTodo s))) then ret tt
  else
    try_finally
      (catch
         (setIsAddingTodo true ;;
          cp <- classify_both env (newTodo s) (newDescription s) ;;
          let category := fst cp in
          let priority := snd cp in
          let id := randomUUID env in
          uid <- user_id_of (user s) ;;
          store (DbCreate (Todo.mk (PString id) (newTodo s) (newDescription s)
                             category priority false (now_persisted env)
                             None uid))
                (create_settles env) ;;
          let createdTodo :=
            Todo.mk (PString id) (newTodo s) (newDescription s)
                    category priority false (now_created env) None uid in
          setTodos (fun prev =>
            let withoutDuplicate :=
              filter (fun t => negb (strict_equals (Todo.id t) (Todo.id createdTodo)))
                     (ensureArray0 (JArray prev)) in
            createdTodo :: withoutDuplicate) ;;
          setNewTodo "" ;;
          setNewDescription "" ;;
          toast_success
            (String.append "Todo added and auto-categorized as "
               (String.append category "!")))
         (fun error =>
            console_error "Error adding todo:" error ;;
            toast_error "Failed to add todo"))
      (setIsAddingTodo false).

Definition toggleTodo (update_settles : outcome unit)
  (id : string) (completed : bool) : M unit :=
  if negb (JsString.truthy id) then ret tt
  else
    catch
      (store (DbUpdate id completed) update_settles ;;
       setTodos (fun prev =>
         map (fun todo =>
                if strict_equals (Todo.id todo) (PString id)
                then Todo.with_completed todo completed
                else todo)
             prev) ;;
       toast_success
         (if completed then "Todo completed!" else "Todo marked as incomplete"))
      (fun error =>
         console_error "Error updating todo:" error ;;
         toast_error "Failed to update todo").

Definition deleteTodo (delete_settles : outcome unit) (id : string) : M unit :=
  catch
    (store (DbDelete id) delete_settles ;;
     setTodos (fun prev =>
       filter (fun todo => negb (strict_equals (Todo.id todo) (PString id))) prev) ;;
     toast_success "Todo deleted")
    (fun error =>
       console_error "Error deleting todo:" error ;;
       toast_error "Failed to delete todo").

(* ===================================================================== *)
(** ** Filtered view *)
(* ===================================================================== *)

(** [Array.isArray(todos) ? todos : []] *)
Definition safeTodos (s : AppState) : list Todo.t :=
  let v := JArray (todos s) in
  if isArray v then asArray v else [].

Definition matches (searchTerm selectedCategory : string) (todo : Todo.t) : bool :=
  let matchesSearch :=
    JsString.includes (JsString.toLowerCase (Todo.title todo))
                      (JsString.toLowerCase searchTerm)
    || JsString.includes (JsString.toLowerCase (Todo.description todo))
                         (JsString.toLowerCase searchTerm) in
  let matchesCategory :=
    String.eqb selectedCategory "all"
    || String.eqb (Todo.category todo) selectedCategory in
  matchesSearch && matchesCategory.

Definition filteredTodos (s : AppState) : list Todo.t :=
  filter (matches (searchTerm s) (selectedCategory s)) (safeTodos s).

(* ===================================================================== *)
(** ** Statistics, effects and the rendered list *)
(* ===================================================================== *)

(** [Number(b)] of a boolean. *)
Definition Number_of_bool (b : bool) : Z := if b then 1%Z else 0%Z.

(** [Number(todo.completed) > 0] *)
Definition is_completed (todo : Todo.t) : bool :=
  Z.ltb 0 (Number_of_bool (Todo.completed todo)).

(** [Array.prototype.length] *)
Definition js_length {A} (l : list A) : Z := Z.of_nat (length l).

Definition completedCount (s : AppState) : Z :=
  js_length (filter is_completed (safeTodos s)).

Definition totalCount (s : AppState) : Z := js_length (safeTodos s).

Definition highPriorityCount (s : AppState) : Z :=
  js_length
    (filter (fun todo =>
               String.eqb (Todo.priority todo) "high" && negb (is_completed todo))
            (safeTodos s)).

(** The counter "Remaining": [{totalCount - completedCount}] *)
Definition remainingCount (s : AppState) : Z :=
  (totalCount s - completedCount s)%Z.

(** The callback given to [blink.auth.onAuthStateChanged]. *)
Definition onAuthStateChanged (u : option User.t) : M unit := setUser u.

(** The effect [if (user) { loadTodos() }], run when [user] changed. *)
Definition loadEffect (list_settles : outcome (jsvalue Todo.t)) : M unit :=
  s <- get_state ;;
  match user s with
  | Some _ => loadTodos list_settles
  | None => ret tt
  end.

(** [disabled={!newTodo.trim() || isAddingTodo}] of the button "Add Task". *)
Definition addDisabled (s : AppState) : bool :=
  negb (JsString.truthy (JsString.trim (newTodo s))) || isAddingTodo s.

(** What the list region of the main view renders: the spinner, one of
    two messages, or the items. *)
Inductive TodosList : Type :=
| ListLoading
| ListEmpty (message : string)
| ListItems (items : list Todo.t).

Definition todosList (s : AppState) : TodosList :=
  if isLoading s then ListLoading
  else if Z.eqb (js_length (filteredTodos s)) 0 then
    ListEmpty
      (if JsString.truthy (searchTerm s)
          || negb (String.eqb (selectedCategory s) "all")
       then "No matching tasks found"
       else "No tasks yet. Add your first task above!")
  else ListItems (filteredTodos s).

(** The list region the component renders, if any: [if (!user)] the
    component returns the sign-in card, which has no list region; else it
    returns the main view, whose list region is [todosList]. *)
Definition renderedList (s : AppState) : option TodosList :=
  match user s with
  | None => None
  | Some _ => Some (todosList s)
  end.

(** The two lookups made for an item: [categories.find(cat => cat.id ===
    todo.category)] and [priorities.find(p => p.id === todo.priority)]; a
    badge is rendered when the lookup finds an entry. *)
Definition categoryBadge (todo : Todo.t) : option Category.t :=
  find_by_id categories (Todo.category todo).

Definition priorityBadge (todo : Todo.t) : option Category.t :=
  find_by_id priorities (Todo.priority todo).

(** [todo.priority === 'high' && <Star />] *)
Definition showsStar (todo : Todo.t) : bool :=
  String.eqb (Todo.priority todo) "high".

(* ===================================================================== *)
(** ** The search test on UTF-16 strings *)
(* ===================================================================== *)

Module Utf16.

(** A string as its sequence of UTF-16 code units. The operations below
    are those of ECMAScript on the alphabet U+0000..U+00FF, U+0391..U+03A9
    and U+03B1..U+03C9 (Latin-1 and the Greek letters); code units outside
    it are left as they are. *)
Definition jsstring : Type := list N.

(** A string of the Latin-1 model, as code units. *)
Definition of_string (s : string) : jsstring :=
  map N_of_ascii (list_ascii_of_string s).

Definition in_range (lo hi c : N) : bool := (N.leb lo c && N.leb c hi)%bool.

(** GREEK CAPITAL LETTER SIGMA, whose lower case depends on its context. *)
Definition capital_sigma : N := 0x3A3%N.
Definition small_sigma : N := 0x3C3%N.
Definition small_final_sigma : N := 0x3C2%N.

(** The capital letters whose lower case is the code unit 32 above:
    A-Z, the Latin-1 capitals, and the Greek capitals but sigma. *)
Definition is_upper (c : N) : bool :=
  in_range 0x41 0x5A c || in_range 0xC0 0xD6 c || in_range 0xD8 0xDE c
  || in_range 0x391 0x3A1 c || in_range 0x3A4 0x3A9 c.

(** The Unicode property Cased on the alphabet. *)
Definition is_cased (c : N) : bool :=
  in_range 0x41 0x5A c || in_range 0x61 0x7A c
  || N.eqb c 0xAA || N.eqb c 0xB5 || N.eqb c 0xBA
  || in_range 0xC0 0xD6 c || in_range 0xD8 0xF6 c || in_range 0xF8 0xFF c
  || in_range 0x391 0x3A1 c || in_range 0x3A3 0x3A9 c || in_range 0x3B1 0x3C9 c.

(** The Unicode property Case_Ignorable on the alphabet. *)
Definition is_case_ignorable (c : N) : bool :=
  existsb (N.eqb c)
    [0x27; 0x2E; 0x3A; 0x5E; 0x60; 0xA8; 0xAD; 0xAF; 0xB4; 0xB7; 0xB8]%N.

(** Is [rest] a run of case-ignorable code units and then a cased letter? *)
Fixpoint followed_by_cased (rest : jsstring) : bool :=
  match rest with
  | [] => false
  | c :: r => if is_case_ignorable c then followed_by_cased r else is_cased c
  end.

(** Lower-cases [s]; [after_cased] tells whether what precedes [s] ends
    in a cased letter and then case-ignorable code units. A capital sigma
    so preceded, and not followed by a cased letter, is final (the
    condition Final_Sigma of SpecialCasing). *)
Fixpoint lower_from (after_cased : bool) (s : jsstring) : jsstring :=
  match s with
  | [] => []
  | c :: r =>
      (if N.eqb c capital_sigma then
         if after_cased && negb (followed_by_cased r)
         then small_final_sigma else small_sigma
       else if is_upper c then (c + 32)%N else c)
      :: lower_from (if is_case_ignorable c then after_cased else is_cased c) r
  end.

(** [String.prototype.toLowerCase] *)
Definition toLowerCase (s : jsstring) : jsstring := lower_from false s.

Fixpoint starts_with (t s : jsstring) : bool :=
  match t, s with
  | [], _ => true
  | _ :: _, [] => false
  | a :: t', b :: s' => N.eqb a b && starts_with t' s'
  end.

(** [String.prototype.includes] *)
Fixpoint includes (s t : jsstring) : bool :=
  starts_with t s ||
  match s with
  | [] => false
  | _ :: s' => includes s' t
  end.

(** The test of [filteredTodos], on the fields of a task it reads. *)
Definition matches (searchTerm : jsstring) (selectedCategory : string)
  (title description : jsstring) (category : string) : bool :=
  let matchesSearch :=
    includes (toLowerCase title) (toLowerCase searchTerm)
    || includes (toLowerCase description) (toLowerCase searchTerm) in
  let matchesCategory :=
    String.eqb selectedCategory "all" || String.eqb category selectedCategory in
  matchesSearch && matchesCategory.

(** [term] occurs in [text]. *)
Definition occurs_in (term text : jsstring) : Prop :=
  exists pre post, text = pre ++ term ++ post.


End Utf16.

(* ===================================================================== *)
(** ** Vocabulary of the properties *)
(* ===================================================================== *)

(** No property in [props] holds an array. *)
Definition no_array_in {T} (props : list (string * jsvalue T)) : Prop :=
  Forall (fun kv => isArray (snd kv) = false) props.

(** The label the service answered, trimmed and lower-cased, when the call
    resolved with a string. *)
Definition service_label (settles : outcome GenerateTextResult) : option string :=
  match settles with
  | Resolved r =>
      match text r with
      | PString s => Some (JsString.toLowerCase (JsString.trim s))
      | _ => None
      end
  | Rejected _ => None
  end.

(** The label of the enum a classifier settles on. *)
Definition label_or_default (enum : list string) (default : string)
  (settles : outcome GenerateTextResult) : string :=
  match service_label settles with
  | Some l => if in_dec string_dec l enum then l else default
  | None => default
  end.

(** What [toggleTodo] does to the collection once the store accepted. *)
Definition toggled (id : string) (completed : bool) (l : list Todo.t) : list Todo.t :=
  map (fun todo =>
         if strict_equals (Todo.id todo) (PString id)
         then Todo.with_completed todo completed
         else todo) l.

(** What [deleteTodo] does to the collection once the store accepted. *)
Definition without (id : string) (l : list Todo.t) : list Todo.t :=
  filter (fun todo => negb (strict_equals (Todo.id todo) (PString id))) l.

(** What a classifier writes with [console.error]: nothing when the call
    resolved with a string, else the error it caught. *)
Definition classifier_errors (label : string)
  (settles : outcome GenerateTextResult) : list (string * exn) :=
  match settles with
  | Rejected e => [(label, e)]
  | Resolved r =>
      match text r with
      | PString _ => []
      | PUndefined =>
          [(label, TypeError "Cannot read properties of undefined (reading 'trim')")]
      | PNull =>
          [(label, TypeError "Cannot read properties of null (reading 'trim')")]
      | _ => [(label, TypeError "text.trim is not a function")]
      end
  end.

(** The two labels one run of [addTodo] assigns. *)
Definition assigned_category (env : AddEnv) : string :=
  label_or_default category_enum "other" (category_settles env).
Definition assigned_priority (env : AddEnv) : string :=
  label_or_default priority_enum "medium" (priority_settles env).

(** The record [addTodo] persists and the one it inserts; they differ in
    the time stamp only. *)
Definition persistedTodo (env : AddEnv) (s : AppState) (uid : string) : Todo.t :=
  Todo.mk (PString (randomUUID env)) (newTodo s) (newDescription s)
          (assigned_category env) (assigned_priority env) false
          (now_persisted env) None uid.

Definition createdTodo (env : AddEnv) (s : AppState) (uid : string) : Todo.t :=
  Todo.mk (PString (randomUUID env)) (newTodo s) (newDescription s)
          (assigned_category env) (assigned_priority env) false
          (now_created env) None uid.

(** What [addTodo] does to the collection once the store accepted. *)
Definition inserted (created : Todo.t) (prev : list Todo.t) : list Todo.t :=
  created ::
  filter (fun t => negb (strict_equals (Todo.id t) (Todo.id created))) prev.

Definition classifier_calls (s : AppState) : list Event :=
  [EvGenerateText (CategorizePrompt (newTodo s) (newDescription s)) 50;
   EvGenerateText (PrioritizePrompt (newTodo s) (newDescription s)) 50].

Definition classifiers_errors (env : AddEnv) : list (string * exn) :=
  classifier_errors "Error categorizing todo:" (category_settles env)
  ++ classifier_errors "Error prioritizing todo:" (priority_settles env).

Definition is_string (k : jsprim) : Prop := exists s, k = PString s.

Definition sample_user : User.t := User.mk "user-1" "ann@example.org".

Definition sample_task (id : jsprim) (title : string) (category : string)
  (completed : bool) : Todo.t :=
  Todo.mk id title "" category "medium" completed "2024-01-01T00:00:00.000Z"
          None "user-1".

(** The state after sign-in, a load of two tasks and a typed title. *)
Definition sample_world : World :=
  mkWorld
    (mkState [sample_task (PString "a") "Call the bank" "work" false;
              sample_task (PString "b") "Water the plants" "home" true]
             (Some sample_user) "Buy milk" "" "" "all" false false)
    [EvStore (DbList "user-1")] [].

(** A list response in an envelope, with a duplicated id, a
    whitespace-only id and a missing id. *)
Definition sample_response : jsvalue Todo.t :=
  JObject
    [("count", JPrim (PNumber (S754_finite false 5 0)));
     ("rows",
      JArray [sample_task (PString "a") "first" "work" false;
              sample_task (PString "  ") "blank id" "other" false;
              sample_task (PString "b") "second" "home" false;
              sample_task PUndefined "no id" "other" false;
              sample_task (PString "a") "first again" "work" true])].

Definition sample_env (create : outcome unit) : AddEnv :=
  mkAddEnv (Resolved (mkGenerated (PString "shopping")))
           (Resolved (mkGenerated (PString "low")))
           "0b5c1c2e-6f0a-4f63-9d1e-3a4b5c6d7e8f"
           "2024-01-02T10:00:00.000Z" "2024-01-02T10:00:00.001Z"
           create.

(** The events an operation appended to the trace. *)
Definition appended (before after : World) (events : list Event) : Prop :=
  trace after = trace before ++ events.

(** The update calls in a trace. *)
Definition update_calls (events : list Event) : list Event :=
  filter is_update_call events.

(** Two tasks agree on every field but [completed]. *)
Definition same_but_completed (t t' : Todo.t) : Prop :=
  Todo.id t' = Todo.id t
  /\ Todo.title t' = Todo.title t
  /\ Todo.description t' = Todo.description t
  /\ Todo.category t' = Todo.category t
  /\ Todo.priority t' = Todo.priority t
  /\ Todo.created_at t' = Todo.created_at t
  /\ Todo.due_date t' = Todo.due_date t
  /\ Todo.user_id t' = Todo.user_id t.

(** [addTodo] succeeded: the title was not blank, a user was signed in and
    the store accepted the record. *)
Definition create_succeeds (env : AddEnv) (w : World) : Prop :=
  JsString.trim (newTodo (state w)) <> ""
  /\ (exists u, user (state w) = Some u)
  /\ (exists x, create_settles env = Resolved x).

Definition drafts (w : World) : string * string :=
  (newTodo (state w), newDescription (state w)).

(** What can happen to the component: the authentication collaborator
    reports a user, the load effect runs, the user types or selects, and
    the three handlers run. *)
Inductive Action : Type :=
| AuthStateChanged (u : option User.t)
| Load (settles : outcome (jsvalue Todo.t))
| TypeTitle (v : string)
| TypeDescription (v : string)
| TypeSearch (v : string)
| SelectCategory (v : string)
| Add (env : AddEnv)
| Toggle (settles : outcome unit) (id : string) (completed : bool)
| Delete (settles : outcome unit) (id : string).

Definition perform (a : Action) : M unit :=
  match a with
  | AuthStateChanged u => setUser u
  | Load settles => loadTodos settles
  | TypeTitle v => setNewTodo v
  | TypeDescription v => setNewDescription v
  | TypeSearch v => setSearchTerm v
  | SelectCategory v => setSelectedCategory v
  | Add env => addTodo env
  | Toggle settles id completed => toggleTodo settles id completed
  | Delete settles id => deleteTodo settles id
  end.

(** [crypto.randomUUID()] returns a string of 36 characters. *)
Definition action_ok (a : Action) : Prop :=
  match a with
  | Add env => String.length (randomUUID env) = 36
  | _ => True
  end.

Inductive reachable : World -> Prop :=
| reachable_initial : reachable (mkWorld initialState [] [])
| reachable_step w a :
    reachable w -> action_ok a -> reachable (exec (perform a) w).

(** Every id is a non-empty string. *)
Definition ids_present (l : list Todo.t) : Prop :=
  Forall (fun t => exists s, Todo.id t = PString s /\ s <> "") l.

Definition collection_ok (l : list Todo.t) : Prop :=
  NoDup (map Todo.id l) /\ ids_present l.

(** The store calls in a list of events. *)
Definition store_calls (events : list Event) : list Event :=
  filter is_store_call events.

(** No task of the collection has the id [id]. *)
Definition id_absent (id : string) (l : list Todo.t) : Prop :=
  forall t, In t l -> Todo.id t <> PString id.

(** [term] occurs in [text]. *)
Definition occurs_in (term text : string) : Prop :=
  exists pre post, text = String.append pre (String.append term post).

(** Some code unit of [s] is not white space. *)
Definition has_visible_char (s : string) : Prop :=
  exists c, In c (list_ascii_of_string s) /\ JsString.is_whitespace c = false.

(** Two tasks agree on every field but [created_at]. *)
Definition same_but_created_at (t t' : Todo.t) : Prop :=
  Todo.id t' = Todo.id t
  /\ Todo.title t' = Todo.title t
  /\ Todo.description t' = Todo.description t
  /\ Todo.category t' = Todo.category t
  /\ Todo.priority t' = Todo.priority t
  /\ Todo.completed t' = Todo.completed t
  /\ Todo.due_date t' = Todo.due_date t
  /\ Todo.user_id t' = Todo.user_id t.

(** The store calls an action issues from a world, whatever the outcome
    of the calls. *)
Definition expected_store_calls (a : Action) (w : World) : list Event :=
  match a with
  | Load _ =>
      match user (state w) with
      | Some u => [EvStore (DbList (User.id u))]
      | None => []
      end
  | Add env =>
      if JsString.truthy (JsString.trim (newTodo (state w))) then
        match user (state w) with
        | Some u => [EvStore (DbCreate (persistedTodo env (state w) (User.id u)))]
        | None => []
        end
      else []
  | Toggle _ id completed =>
      if JsString.truthy id then [EvStore (DbUpdate id completed)] else []
  | Delete _ id => [EvStore (DbDelete id)]
  | _ => []
  end.

(** A store call made on behalf of the user [u]: a list or a create call
    names that user; update and delete calls name a task only. *)
Definition scoped_to (u : option User.t) (e : Event) : Prop :=
  match e with
  | EvStore (DbList uid) => exists x, u = Some x /\ uid = User.id x
  | EvStore (DbCreate record) => exists x, u = Some x /\ Todo.user_id record = User.id x
  | _ => True
  end.

(** The collection [loadTodos] builds from a response. *)
Definition normalized (response : jsvalue Todo.t) : list Todo.t :=
  unique_by_id (filter valid_id (ensureArray0 response)).

(** The text-generation calls in a list of events. *)
Definition generate_calls (events : list Event) : list Event :=
  filter (fun e => match e with EvGenerateText _ _ => true | _ => false end) events.

(** The notifications in a list of events. *)
Definition toasts (events : list Event) : list Event :=
  filter (fun e => match e with
                   | EvToastSuccess _ | EvToastError _ => true
                   | _ => false
                   end) events.

(** The events an action appends to the trace, in order: the calls it
    issues and the one notification that follows them. *)
Definition expected_events (a : Action) (w : World) : list Event :=
  match a with
  | Load settles =>
      match user (state w) with
      | None => [EvToastError "Failed to load todos"]
      | Some u =>
          EvStore (DbList (User.id u))
          :: match settles with
             | Resolved _ => []
             | Rejected _ => [EvToastError "Failed to load todos"]
             end
      end
  | Add env =>
      if JsString.truthy (JsString.trim (newTodo (state w))) then
        classifier_calls (state w)
        ++ match user (state w) with
           | None => [EvToastError "Failed to add todo"]
           | Some u =>
               EvStore (DbCreate (persistedTodo env (state w) (User.id u)))
               :: match create_settles env with
                  | Resolved _ =>
                      [EvToastSuccess
                         (String.append "Todo added and auto-categorized as "
                            (String.append (assigned_category env) "!"))]
                  | Rejected _ => [EvToastError "Failed to add todo"]
                  end
           end
      else []
  | Toggle settles id completed =>
      if JsString.truthy id then
        EvStore (DbUpdate id completed)
        :: match settles with
           | Resolved _ =>
               [EvToastSuccess (if completed then "Todo completed!"
                                else "Todo marked as incomplete")]
           | Rejected _ => [EvToastError "Failed to update todo"]
           end
      else []
  | Delete settles id =>
      EvStore (DbDelete id)
      :: match settles with
         | Resolved _ => [EvToastSuccess "Todo deleted"]
         | Rejected _ => [EvToastError "Failed to delete todo"]
         end
  | _ => []
  end.

(* ===================================================================== *)
(** * Properties *)
(* ===================================================================== *)

(** ** Response normalizer *)

Section Normalizer.
Context {T : Type}.

Lemma first_array_skip (pre : list (string * jsvalue T)) rest fallback :
  no_array_in pre ->
  first_array (map snd pre ++ rest) fallback = first_array rest fallback.
Proof.
  induction 1 as [| kv pre Hkv _ IH]; simpl; [reflexivity |].
  rewrite Hkv. exact IH.
Qed.

Lemma first_array_none (props : list (string * jsvalue T)) fallback :
  no_array_in props -> first_array (map snd props) fallback = fallback.
Proof.
  intros H. rewrite <- (app_nil_r (map snd props)).
  rewrite first_array_skip by assumption. reflexivity.
Qed.

Lemma ensureArray_object (props : list (string * jsvalue T)) fallback :
  ensureArray (JObject props) fallback =
  if isArray (lookup_prop props "data")
  then asArray (lookup_prop props "data")
  else first_array (map snd props) fallback.
Proof. reflexivity. Qed.

Lemma ensureArray_not_object (v : jsvalue T) fallback :
  isArray v = false -> (forall props, v <> JObject props) ->
  ensureArray v fallback = fallback.
Proof.
  intros Ha Ho. destruct v as [p | | items | props]; simpl in *.
  - unfold ensureArray; simpl.
    destruct p; simpl; try reflexivity;
      rewrite ?andb_false_r; reflexivity.
  - reflexivity.
  - discriminate.
  - exfalso. apply (Ho props). reflexivity.
Qed.
End Normalizer.

(** C2. [ensureArray] returns the array itself when given an array; for an
    object, the array under the key [data] when that field is an array, and
    otherwise the first array-valued field in the order of [Object.values];
    and the empty array when the object holds no array or the value is
    neither an array nor an object. It is a total function: no input makes
    it raise. *)
Theorem ensureArray_cases (T : Type) :
  (forall items : list T, ensureArray0 (JArray items) = items)
  /\ (forall (props : list (string * jsvalue T)) items,
        lookup_prop props "data" = JArray items ->
        ensureArray0 (JObject props) = items)
  /\ (forall (pre post : list (string * jsvalue T)) key items,
        isArray (lookup_prop (pre ++ (key, JArray items) :: post) "data") = false ->
        no_array_in pre ->
        ensureArray0 (JObject (pre ++ (key, JArray items) :: post)) = items)
  /\ (forall props : list (string * jsvalue T),
        no_array_in props -> ensureArray0 (JObject props) = [])
  /\ (forall v : jsvalue T,
        isArray v = false -> (forall props, v <> JObject props) ->
        ensureArray0 v = []).
Proof.
  unfold ensureArray0. repeat split.
  - intros props items Hd. rewrite ensureArray_object, Hd. reflexivity.
  - intros pre post key items Hd Hpre.
    rewrite ensureArray_object, Hd, map_app, first_array_skip by assumption.
    reflexivity.
  - intros props Hno. rewrite ensureArray_object.
    destruct (isArray (lookup_prop props "data")) eqn:Hd.
    + exfalso. clear -Hno Hd. induction Hno as [| [k v] props Hkv _ IH]; simpl in *.
      * discriminate.
      * destruct (String.eqb k "data"); [congruence | auto].
    + apply first_array_none; assumption.
  - intros v Ha Ho. apply ensureArray_not_object; assumption.
Qed.

Lemma ensureArray_cases_witness :
  ensureArray0 (JObject [("count", JPrim (PBool true)); ("data", JArray [1; 2])]) = [1; 2]
  /\ ensureArray0 (JObject [("count", JPrim PNull); ("rows", JArray [3]); ("more", JArray [4])]) = [3]
  /\ ensureArray0 (JObject [("count", @JPrim nat PNull)]) = []
  /\ ensureArray0 (@JPrim nat (PString "oops")) = [].
Proof.
  destruct (ensureArray_cases nat) as (_ & Hdata & Hfirst & Hnone & Hother).
  split; [| split; [| split]].
  - apply Hdata. reflexivity.
  - apply (Hfirst [("count", JPrim PNull)] [("more", JArray [4])] "rows" [3]).
    + reflexivity.
    + repeat constructor.
  - apply Hnone. repeat constructor.
  - apply Hother; [reflexivity | discriminate].
Defined.

(** ** Task classifier *)

#[local] Arguments find_by_id : simpl never.

Lemma find_by_id_some (table : list Category.t) (label : string) :
  (exists c, find_by_id table label = Some c) <-> In label (map Category.id table).
Proof.
  unfold find_by_id. induction table as [| x table IH]; simpl.
  - split; [intros [c H]; discriminate | intros []].
  - destruct (String.eqb_spec (Category.id x) label) as [E | N].
    + split; [intros _; left; exact E | intros _; eexists; reflexivity].
    + rewrite IH. split; [intros H; right; exact H | intros [E | H]; [contradiction | exact H]].
Qed.

Lemma find_by_id_none (table : list Category.t) (label : string) :
  find_by_id table label = None <-> ~ In label (map Category.id table).
Proof.
  rewrite <- find_by_id_some. split.
  - intros H [c Hc]. congruence.
  - intros H. destruct (find_by_id table label) eqn:E; [| reflexivity].
    exfalso. apply H. eexists; reflexivity.
Qed.

Lemma categories_ids : map Category.id categories = category_enum.
Proof. reflexivity. Qed.

Lemma priorities_ids : map Category.id priorities = priority_enum.
Proof. reflexivity. Qed.

(** The run of a classifier whose call resolved with a string. *)
Lemma categorizeTodo_run_string s title description w :
  categorizeTodo (Resolved (mkGenerated (PString s))) title description w =
  (Normal (match find_by_id categories (JsString.toLowerCase (JsString.trim s)) with
           | Some _ => JsString.toLowerCase (JsString.trim s)
           | None => "other"
           end),
   mkWorld (state w)
           (trace w ++ [EvGenerateText (CategorizePrompt title description) 50])
           (console w)).
Proof. reflexivity. Qed.

Lemma prioritizeTodo_run_string s title description w :
  prioritizeTodo (Resolved (mkGenerated (PString s))) title description w =
  (Normal (match find_by_id priorities (JsString.toLowerCase (JsString.trim s)) with
           | Some _ => JsString.toLowerCase (JsString.trim s)
           | None => "medium"
           end),
   mkWorld (state w)
           (trace w ++ [EvGenerateText (PrioritizePrompt title description) 50])
           (console w)).
Proof. reflexivity. Qed.

Lemma pick_label (table : list Category.t) (enum : list string) default l :
  map Category.id table = enum ->
  match find_by_id table l with Some _ => l | None => default end =
  if in_dec string_dec l enum then l else default.
Proof.
  intros <-.
  destruct (in_dec string_dec l (map Category.id table)) as [Hin | Hout].
  - apply find_by_id_some in Hin. destruct Hin as [c Hc]. rewrite Hc. reflexivity.
  - apply find_by_id_none in Hout. rewrite Hout. reflexivity.
Qed.

Lemma categorizeTodo_returns settles title description w :
  eval (categorizeTodo settles title description) w =
  Normal (label_or_default category_enum "other" settles).
Proof.
  unfold label_or_default, service_label, eval.
  destruct settles as [[txt] | e]; [| reflexivity].
  destruct txt as [| | b | n | s]; try reflexivity.
  rewrite categorizeTodo_run_string.
  unfold text, fst. f_equal. apply pick_label. reflexivity.
Qed.

Lemma prioritizeTodo_returns settles title description w :
  eval (prioritizeTodo settles title description) w =
  Normal (label_or_default priority_enum "medium" settles).
Proof.
  unfold label_or_default, service_label, eval.
  destruct settles as [[txt] | e]; [| reflexivity].
  destruct txt as [| | b | n | s]; try reflexivity.
  rewrite prioritizeTodo_run_string.
  unfold text, fst. f_equal. apply pick_label. reflexivity.
Qed.

(** A classifier leaves the component state alone. *)
Lemma categorizeTodo_state settles title description w :
  state (exec (categorizeTodo settles title description) w) = state w.
Proof.
  unfold exec, categorizeTodo.
  destruct settles as [[txt] | e]; [| reflexivity].
  destruct txt; reflexivity.
Qed.

Lemma prioritizeTodo_state settles title description w :
  state (exec (prioritizeTodo settles title description) w) = state w.
Proof.
  unfold exec, prioritizeTodo.
  destruct settles as [[txt] | e]; [| reflexivity].
  destruct txt; reflexivity.
Qed.

Lemma label_or_default_in enum default settles :
  In default enum -> In (label_or_default enum default settles) enum.
Proof.
  intros Hd. unfold label_or_default.
  destruct (service_label settles) as [l |]; [| exact Hd].
  destruct (in_dec string_dec l enum); assumption.
Qed.

Lemma label_or_default_hit enum default settles l :
  service_label settles = Some l -> In l enum ->
  label_or_default enum default settles = l.
Proof.
  intros Hs Hin. unfold label_or_default. rewrite Hs.
  destruct (in_dec string_dec l enum); [reflexivity | contradiction].
Qed.

Lemma label_or_default_miss enum default settles :
  (forall l, service_label settles = Some l -> ~ In l enum) ->
  label_or_default enum default settles = default.
Proof.
  intros Hs. unfold label_or_default.
  destruct (service_label settles) as [l |]; [| reflexivity].
  destruct (in_dec string_dec l enum) as [Hin | _]; [| reflexivity].
  exfalso. exact (Hs l eq_refl Hin).
Qed.

(** C3. For every title and description and however the text-generation
    call settles, each classifier completes normally (it never throws) with
    a member of its enum: the trimmed, lower-cased answer of the service
    when that is in the enum, and otherwise (the call rejected, or the
    answer is outside the enum) the default, [other] for the category and
    [medium] for the priority. *)
Theorem classifier_returns_enum_member
  (settles : outcome GenerateTextResult) (title description : string) (w : World) :
  (exists c,
      eval (categorizeTodo settles title description) w = Normal c
      /\ In c category_enum
      /\ (forall l, service_label settles = Some l -> In l category_enum -> c = l)
      /\ ((forall l, service_label settles = Some l -> ~ In l category_enum) ->
          c = "other"))
  /\ (exists p,
      eval (prioritizeTodo settles title description) w = Normal p
      /\ In p priority_enum
      /\ (forall l, service_label settles = Some l -> In l priority_enum -> p = l)
      /\ ((forall l, service_label settles = Some l -> ~ In l priority_enum) ->
          p = "medium")).
Proof.
  split.
  - exists (label_or_default category_enum "other" settles).
    split; [apply categorizeTodo_returns |].
    split; [apply label_or_default_in; simpl; tauto |].
    split; [intros l; apply label_or_default_hit | apply label_or_default_miss].
  - exists (label_or_default priority_enum "medium" settles).
    split; [apply prioritizeTodo_returns |].
    split; [apply label_or_default_in; simpl; tauto |].
    split; [intros l; apply label_or_default_hit | apply label_or_default_miss].
Qed.

Lemma classifier_returns_enum_member_witness :
  eval (categorizeTodo (Resolved (mkGenerated (PString " Shopping ")))
          "Buy milk" "") (mkWorld initialState [] []) = Normal "shopping"
  /\ eval (prioritizeTodo (Resolved (mkGenerated (PString "urgent!!")))
             "Buy milk" "") (mkWorld initialState [] []) = Normal "medium".
Proof.
  split.
  - destruct (classifier_returns_enum_member
                (Resolved (mkGenerated (PString " Shopping "))) "Buy milk" ""
                (mkWorld initialState [] []))
      as [[c (Hc & _ & Hhit & _)] _].
    rewrite Hc. f_equal. apply Hhit; [reflexivity | simpl; tauto].
  - destruct (classifier_returns_enum_member
                (Resolved (mkGenerated (PString "urgent!!"))) "Buy milk" ""
                (mkWorld initialState [] []))
      as [_ [p (Hp & _ & _ & Hmiss)]].
    rewrite Hp. f_equal. apply Hmiss.
    intros l Hl. injection Hl as <-. vm_compute.
    intros H; repeat (destruct H as [H | H]; [discriminate H |]); exact H.
Defined.

(** ** Runs of the controller operations *)

Lemma truthy_nonempty (s : string) : JsString.truthy s = true <-> s <> "".
Proof. destruct s; simpl; split; congruence. Qed.

Lemma snoc2 {A} (l : list A) a b : l ++ [a; b] = (l ++ [a]) ++ [b].
Proof. rewrite <- app_assoc. reflexivity. Qed.

Lemma toggleTodo_empty_id settles completed w :
  toggleTodo settles "" completed w = (Normal tt, w).
Proof. reflexivity. Qed.

Lemma toggleTodo_resolved u id completed w :
  id <> "" ->
  toggleTodo (Resolved u) id completed w =
  (Normal tt,
   mkWorld (with_todos (toggled id completed (todos (state w))) (state w))
           (trace w ++ [EvStore (DbUpdate id completed);
                        EvToastSuccess (if completed then "Todo completed!"
                                        else "Todo marked as incomplete")])
           (console w)).
Proof.
  intros Hid. destruct id as [| c id]; [contradiction |].
  rewrite snoc2. reflexivity.
Qed.

Lemma toggleTodo_rejected e id completed w :
  id <> "" ->
  toggleTodo (Rejected e) id completed w =
  (Normal tt,
   mkWorld (state w)
           (trace w ++ [EvStore (DbUpdate id completed);
                        EvToastError "Failed to update todo"])
           (console w ++ [("Error updating todo:", e)])).
Proof.
  intros Hid. destruct id as [| c id]; [contradiction |].
  rewrite snoc2. reflexivity.
Qed.

Lemma deleteTodo_resolved u id w :
  deleteTodo (Resolved u) id w =
  (Normal tt,
   mkWorld (with_todos (without id (todos (state w))) (state w))
           (trace w ++ [EvStore (DbDelete id); EvToastSuccess "Todo deleted"])
           (console w)).
Proof. rewrite snoc2. reflexivity. Qed.

Lemma deleteTodo_rejected e id w :
  deleteTodo (Rejected e) id w =
  (Normal tt,
   mkWorld (state w)
           (trace w ++ [EvStore (DbDelete id); EvToastError "Failed to delete todo"])
           (console w ++ [("Error deleting todo:", e)])).
Proof. rewrite snoc2. reflexivity. Qed.

Lemma categorizeTodo_run settles title description w :
  categorizeTodo settles title description w =
  (Normal (label_or_default category_enum "other" settles),
   mkWorld (state w)
           (trace w ++ [EvGenerateText (CategorizePrompt title description) 50])
           (console w ++ classifier_errors "Error categorizing todo:" settles)).
Proof.
  destruct settles as [[txt] | e]; [| reflexivity].
  destruct txt as [| | b | n | s]; try reflexivity.
  rewrite categorizeTodo_run_string.
  unfold label_or_default, service_label, classifier_errors, text.
  rewrite app_nil_r. f_equal. f_equal. apply pick_label. reflexivity.
Qed.

Lemma prioritizeTodo_run settles title description w :
  prioritizeTodo settles title description w =
  (Normal (label_or_default priority_enum "medium" settles),
   mkWorld (state w)
           (trace w ++ [EvGenerateText (PrioritizePrompt title description) 50])
           (console w ++ classifier_errors "Error prioritizing todo:" settles)).
Proof.
  destruct settles as [[txt] | e]; [| reflexivity].
  destruct txt as [| | b | n | s]; try reflexivity.
  rewrite prioritizeTodo_run_string.
  unfold label_or_default, service_label, classifier_errors, text.
  rewrite app_nil_r. f_equal. f_equal. apply pick_label. reflexivity.
Qed.

Lemma classify_both_run env title description w :
  classify_both env title description w =
  (Normal (assigned_category env, assigned_priority env),
   mkWorld (state w)
           (trace w ++ [EvGenerateText (CategorizePrompt title description) 50;
                        EvGenerateText (PrioritizePrompt title description) 50])
           (console w
              ++ classifier_errors "Error categorizing todo:" (category_settles env)
              ++ classifier_errors "Error prioritizing todo:" (priority_settles env))).
Proof.
  unfold classify_both, assigned_category, assigned_priority.
  cbv [bind Monad_M]. rewrite categorizeTodo_run, prioritizeTodo_run.
  cbv [ret Monad_M state trace console]. rewrite snoc2, app_assoc. reflexivity.
Qed.

Lemma addTodo_blank env w :
  JsString.trim (newTodo (state w)) = "" -> addTodo env w = (Normal tt, w).
Proof. intros H. unfold addTodo. cbv [bind Monad_M get_state]. rewrite H. reflexivity. Qed.

(** Enters [addTodo] past the guard on the title and runs the two
    classifiers, leaving the goal at the read of [user.id]. *)
Ltac enter_addTodo Hblank w :=
  apply truthy_nonempty in Hblank;
  unfold addTodo; cbv [bind Monad_M get_state]; rewrite Hblank;
  cbv [negb try_finally catch MonadExc_M bind Monad_M setIsAddingTodo modify_state];
  rewrite classify_both_run;
  unfold classifier_calls, classifiers_errors;
  change (trace w ++ ?a ++ ?b) with (trace w ++ (a ++ b));
  rewrite (app_assoc (trace w)).

Lemma addTodo_resolved env w u x :
  JsString.trim (newTodo (state w)) <> "" ->
  user (state w) = Some u ->
  create_settles env = Resolved x ->
  addTodo env w =
  (Normal tt,
   mkWorld
     (with_isAddingTodo false
        (with_newDescription ""
           (with_newTodo ""
              (with_todos
                 (inserted (createdTodo env (state w) (User.id u)) (todos (state w)))
                 (with_isAddingTodo true (state w))))))
     (trace w ++ classifier_calls (state w)
        ++ [EvStore (DbCreate (persistedTodo env (state w) (User.id u)));
            EvToastSuccess
              (String.append "Todo added and auto-categorized as "
                 (String.append (assigned_category env) "!"))])
     (console w ++ classifiers_errors env)).
Proof.
  intros Hblank Hu Hc. enter_addTodo Hblank w.
  rewrite Hu, Hc, (snoc2 (trace w ++ _)). reflexivity.
Qed.

Lemma addTodo_rejected env w u e :
  JsString.trim (newTodo (state w)) <> "" ->
  user (state w) = Some u ->
  create_settles env = Rejected e ->
  addTodo env w =
  (Normal tt,
   mkWorld
     (with_isAddingTodo false (with_isAddingTodo true (state w)))
     (trace w ++ classifier_calls (state w)
        ++ [EvStore (DbCreate (persistedTodo env (state w) (User.id u)));
            EvToastError "Failed to add todo"])
     ((console w ++ classifiers_errors env) ++ [("Error adding todo:", e)])).
Proof.
  intros Hblank Hu Hc. enter_addTodo Hblank w.
  rewrite Hu, Hc, (snoc2 (trace w ++ _)). reflexivity.
Qed.

Lemma addTodo_signed_out env w :
  JsString.trim (newTodo (state w)) <> "" ->
  user (state w) = None ->
  addTodo env w =
  (Normal tt,
   mkWorld
     (with_isAddingTodo false (with_isAddingTodo true (state w)))
     (trace w ++ classifier_calls (state w) ++ [EvToastError "Failed to add todo"])
     ((console w ++ classifiers_errors env)
        ++ [("Error adding todo:",
             TypeError "Cannot read properties of null (reading 'id')")])).
Proof.
  intros Hblank Hu. enter_addTodo Hblank w.
  rewrite Hu. reflexivity.
Qed.

Lemma loadTodos_resolved response w u :
  user (state w) = Some u ->
  loadTodos (Resolved response) w =
  (Normal tt,
   mkWorld
     (with_isLoading false
        (with_todos (unique_by_id (filter valid_id (ensureArray0 response)))
           (with_isLoading true (state w))))
     (trace w ++ [EvStore (DbList (User.id u))])
     (console w)).
Proof.
  intros Hu. unfold loadTodos. cbv [bind Monad_M get_state]. rewrite Hu.
  reflexivity.
Qed.

Lemma loadTodos_rejected e w u :
  user (state w) = Some u ->
  loadTodos (Rejected e) w =
  (Normal tt,
   mkWorld
     (with_isLoading false (with_isLoading true (state w)))
     (trace w ++ [EvStore (DbList (User.id u)); EvToastError "Failed to load todos"])
     (console w ++ [("Error loading todos:", e)])).
Proof.
  intros Hu. unfold loadTodos. cbv [bind Monad_M get_state]. rewrite Hu.
  rewrite snoc2. reflexivity.
Qed.

(** ** The insertion-ordered map with string keys *)

Lemma same_value_zero_string (k : jsprim) (s : string) :
  same_value_zero k (PString s) = true <-> k = PString s.
Proof.
  destruct k as [| | b | n | s']; simpl; try (split; congruence).
  rewrite String.eqb_eq. split; congruence.
Qed.

Lemma strict_equals_string (k : jsprim) (s : string) :
  strict_equals k (PString s) = true <-> k = PString s.
Proof.
  destruct k as [| | b | n | s']; simpl; try (split; congruence).
  rewrite String.eqb_eq. split; congruence.
Qed.

Section MapFacts.
Context {V : Type}.
Implicit Types (m : @JsMap.t V) (k : jsprim) (v : V).

Lemma set_keys_present m k v :
  is_string k -> In k (JsMap.keys m) ->
  JsMap.keys (JsMap.set k v m) = JsMap.keys m.
Proof.
  intros [s ->]. induction m as [| [k' v'] m IH]; simpl; [intros [] |].
  destruct (same_value_zero k' (PString s)) eqn:E; [reflexivity |].
  intros [Hk | Hin].
  - apply same_value_zero_string in Hk. congruence.
  - simpl. f_equal. apply IH. exact Hin.
Qed.

Lemma set_keys_absent m k v :
  is_string k -> ~ In k (JsMap.keys m) ->
  JsMap.keys (JsMap.set k v m) = JsMap.keys m ++ [k].
Proof.
  intros [s ->]. induction m as [| [k' v'] m IH]; simpl; [reflexivity |].
  intros Hnot. destruct (same_value_zero k' (PString s)) eqn:E.
  - apply same_value_zero_string in E. tauto.
  - simpl. f_equal. apply IH. tauto.
Qed.

Lemma set_entries m k v e :
  is_string k -> In e (JsMap.set k v m) -> e = (k, v) \/ In e m.
Proof.
  intros [s ->]. induction m as [| [k' v'] m IH]; simpl.
  - intros [<- | []]. left; reflexivity.
  - destruct (same_value_zero k' (PString s)) eqn:E; simpl.
    + apply same_value_zero_string in E. subst k'.
      intros [<- | Hin]; auto.
    + intros [<- | Hin]; [auto |]. destruct (IH Hin); auto.
Qed.

Lemma string_key_in_or_not (l : list jsprim) k :
  is_string k -> In k l \/ ~ In k l.
Proof.
  intros [s ->]. induction l as [| k' l IH]; simpl; [tauto |].
  destruct (same_value_zero k' (PString s)) eqn:E.
  - apply same_value_zero_string in E. auto.
  - assert (k' <> PString s) as N.
    { intros H. apply same_value_zero_string in H. congruence. }
    tauto.
Qed.

Lemma NoDup_snoc {A} (l : list A) (a : A) :
  NoDup l -> ~ In a l -> NoDup (l ++ [a]).
Proof.
  induction 1 as [| x l Hx Hnd IH]; simpl; intros Ha.
  - constructor; [intros [] | constructor].
  - constructor.
    + rewrite in_app_iff. simpl. intros [H | [H | []]]; [tauto | subst; tauto].
    + apply IH. tauto.
Qed.

Lemma set_keeps_NoDup m k v :
  is_string k -> NoDup (JsMap.keys m) -> NoDup (JsMap.keys (JsMap.set k v m)).
Proof.
  intros Hs Hnd. destruct (string_key_in_or_not (JsMap.keys m) k Hs) as [Hin | Hout].
  - rewrite set_keys_present; assumption.
  - rewrite set_keys_absent by assumption.
    apply NoDup_snoc; assumption.
Qed.

Lemma set_keys_In m k v k0 :
  is_string k ->
  In k0 (JsMap.keys (JsMap.set k v m)) <-> In k0 (JsMap.keys m) \/ k0 = k.
Proof.
  intros Hs. destruct (string_key_in_or_not (JsMap.keys m) k Hs) as [Hin | Hout].
  - rewrite set_keys_present by assumption.
    split; [auto | intros [H | ->]; assumption].
  - rewrite set_keys_absent by assumption. rewrite in_app_iff. simpl.
    split; [intros [H | [H | []]]; auto | intros [H | H]; auto].
Qed.

(** Folding [set] over entries with string keys, from any map. *)
Lemma fold_set_spec (entries : list (jsprim * V)) :
  Forall (fun e => is_string (fst e)) entries ->
  forall m, NoDup (JsMap.keys m) ->
    let r := fold_left (fun m e => JsMap.set (fst e) (snd e) m) entries m in
    NoDup (JsMap.keys r)
    /\ (forall k, In k (JsMap.keys r) <->
                  In k (JsMap.keys m) \/ In k (map fst entries))
    /\ (forall e, In e r -> In e m \/ In e entries).
Proof.
  induction 1 as [| [k v] entries Hk _ IH]; simpl; intros m Hnd.
  - split; [assumption |]. split; [tauto | auto].
  - simpl in Hk.
    destruct (IH (JsMap.set k v m) (set_keeps_NoDup m k v Hk Hnd))
      as (Hnd' & Hkeys & Hent).
    split; [assumption |]. split.
    + intros k0. rewrite Hkeys, set_keys_In by assumption.
      split; [intros [[H | H] | H] | intros [H | [H | H]]]; auto.
    + intros e He. destruct (Hent e He) as [H | H]; [| auto].
      destruct (set_entries m k v e Hk H) as [-> | H']; auto.
Qed.

Lemma of_entries_spec (entries : list (jsprim * V)) :
  Forall (fun e => is_string (fst e)) entries ->
  NoDup (JsMap.keys (JsMap.of_entries entries))
  /\ (forall k, In k (JsMap.keys (JsMap.of_entries entries)) <->
                In k (map fst entries))
  /\ (forall e, In e (JsMap.of_entries entries) -> In e entries).
Proof.
  intros Hs. destruct (fold_set_spec entries Hs [] (NoDup_nil _))
    as (Hnd & Hkeys & Hent).
  split; [exact Hnd |]. split.
  - intros k. unfold JsMap.of_entries. rewrite Hkeys. simpl. tauto.
  - intros e He. destruct (Hent e He) as [[] | H]. exact H.
Qed.
End MapFacts.

(** ** Uniqueness of [id] in the collection *)

Lemma valid_id_spec (t : Todo.t) :
  valid_id t = true <->
  exists s, Todo.id t = PString s /\ JsString.trim s <> "".
Proof.
  unfold valid_id. destruct (Todo.id t) as [| | b | n | s].
  1-4: split; [discriminate | intros (s' & H & _); discriminate].
  rewrite negb_true_iff. split.
  - intros H. exists s. split; [reflexivity |].
    intros E. rewrite E in H. discriminate.
  - intros (s' & E & N). injection E as <-.
    destruct (String.eqb_spec (JsString.trim s) ""); [contradiction | reflexivity].
Qed.

Lemma ids_of_values (m : @JsMap.t Todo.t) :
  (forall e, In e m -> fst e = Todo.id (snd e)) ->
  map Todo.id (JsMap.values m) = JsMap.keys m.
Proof.
  unfold JsMap.values, JsMap.keys.
  induction m as [| e m IH]; simpl; intros H; [reflexivity |].
  rewrite <- (H e) by auto. f_equal. apply IH. auto.
Qed.

Lemma unique_by_id_spec (validArray : list Todo.t) :
  Forall (fun t => is_string (Todo.id t)) validArray ->
  NoDup (map Todo.id (unique_by_id validArray))
  /\ (forall k, In k (map Todo.id (unique_by_id validArray)) <->
                In k (map Todo.id validArray))
  /\ (forall t, In t (unique_by_id validArray) -> In t validArray).
Proof.
  intros Hs. unfold unique_by_id.
  set (entries := map (fun t => (Todo.id t, t)) validArray).
  assert (Forall (fun e => is_string (fst e)) entries) as Hes.
  { unfold entries. rewrite Forall_map. exact Hs. }
  destruct (of_entries_spec entries Hes) as (Hnd & Hkeys & Hent).
  assert (forall e, In e (JsMap.of_entries entries) -> fst e = Todo.id (snd e)) as Hfst.
  { intros e He. apply Hent in He. unfold entries in He.
    apply in_map_iff in He. destruct He as (t & <- & _). reflexivity. }
  rewrite (ids_of_values _ Hfst).
  split; [exact Hnd |]. split.
  - intros k. rewrite Hkeys. unfold entries. rewrite map_map. simpl. tauto.
  - intros t Ht. unfold JsMap.values in Ht. apply in_map_iff in Ht.
    destruct Ht as (e & <- & He). apply Hent in He. unfold entries in He.
    apply in_map_iff in He. destruct He as (t' & <- & Ht'). exact Ht'.
Qed.

(** Filtering the collection cannot introduce a duplicate id. *)
Lemma filter_keeps_ids_unique (keep : Todo.t -> bool) (collection : list Todo.t) :
  NoDup (map Todo.id collection) ->
  NoDup (map Todo.id (filter keep collection)).
Proof.
  induction collection as [| t rest IH]; simpl; intros H; [constructor |].
  apply NoDup_cons_iff in H. destruct H as [Hnot Hnd].
  destruct (keep t); simpl; [| auto].
  constructor; [| auto].
  intros Hin. apply Hnot. apply in_map_iff in Hin.
  destruct Hin as (x & Hx & Hf). apply filter_In in Hf.
  apply in_map_iff. exists x. tauto.
Qed.

Lemma inserted_NoDup (created : Todo.t) (prev : list Todo.t) :
  is_string (Todo.id created) ->
  NoDup (map Todo.id prev) -> NoDup (map Todo.id (inserted created prev)).
Proof.
  intros [s Hs] Hnd. unfold inserted. simpl. constructor.
  - intros Hin. apply in_map_iff in Hin. destruct Hin as (t & Ht & Hf).
    apply filter_In in Hf. destruct Hf as [_ Hf].
    rewrite Hs in Hf, Ht. apply negb_true_iff in Hf.
    apply strict_equals_string in Ht. congruence.
  - apply filter_keeps_ids_unique. exact Hnd.
Qed.

Lemma addTodo_keeps_NoDup env w :
  NoDup (map Todo.id (todos (state w))) ->
  NoDup (map Todo.id (todos (state (exec (addTodo env) w)))).
Proof.
  intros Hnd. unfold exec.
  destruct (string_dec (JsString.trim (newTodo (state w))) "") as [Hb | Hb].
  { rewrite addTodo_blank by assumption. exact Hnd. }
  destruct (user (state w)) as [u |] eqn:Hu.
  2: { rewrite addTodo_signed_out by assumption. exact Hnd. }
  destruct (create_settles env) as [x | e] eqn:Hc.
  - rewrite (addTodo_resolved env w u x) by assumption. simpl.
    apply (inserted_NoDup (createdTodo env (state w) (User.id u)));
      [eexists; reflexivity | exact Hnd].
  - rewrite (addTodo_rejected env w u e) by assumption. exact Hnd.
Qed.

(** C1. Whatever the store's list operation delivers (duplicate ids, and
    records whose id is missing, not a string or whitespace-only,
    included), the collection after a successful load holds no id twice and
    holds exactly the non-blank string ids among the delivered records,
    each entry being one of the delivered records; and [addTodo] never
    breaks the uniqueness of id in the collection. *)
Theorem collection_ids_unique :
  (forall (response : jsvalue Todo.t) (w : World) (u : User.t),
      user (state w) = Some u ->
      let loaded := todos (state (exec (loadTodos (Resolved response)) w)) in
      NoDup (map Todo.id loaded)
      /\ (forall k, In k (map Todo.id loaded) <->
                    exists s t, k = PString s /\ JsString.trim s <> ""
                                /\ In t (ensureArray0 response)
                                /\ Todo.id t = PString s)
      /\ (forall t, In t loaded -> In t (ensureArray0 response)))
  /\ (forall (env : AddEnv) (w : World),
      NoDup (map Todo.id (todos (state w))) ->
      NoDup (map Todo.id (todos (state (exec (addTodo env) w))))).
Proof.
  split; [| exact addTodo_keeps_NoDup].
  intros response w u Hu. unfold exec.
  rewrite (loadTodos_resolved response w u Hu). simpl.
  set (delivered := ensureArray0 response).
  assert (Forall (fun t => is_string (Todo.id t)) (filter valid_id delivered)) as Hs.
  { apply Forall_forall. intros t Ht. apply filter_In in Ht.
    destruct Ht as [_ Hv]. apply valid_id_spec in Hv.
    destruct Hv as (s & Hs & _). exists s. exact Hs. }
  destruct (unique_by_id_spec _ Hs) as (Hnd & Hkeys & Hent).
  split; [exact Hnd |]. split.
  - intros k. rewrite Hkeys, in_map_iff. split.
    + intros (t & <- & Ht). apply filter_In in Ht. destruct Ht as [Hin Hv].
      apply valid_id_spec in Hv. destruct Hv as (s & Hid & Hne).
      exists s, t. auto.
    + intros (s & t & -> & Hne & Hin & Hid). exists t. split; [exact Hid |].
      apply filter_In. split; [exact Hin |].
      apply valid_id_spec. exists s. auto.
  - intros t Ht. apply Hent in Ht. apply filter_In in Ht. tauto.
Qed.

Lemma collection_ids_unique_witness :
  NoDup (map Todo.id
           (todos (state (exec (loadTodos (Resolved sample_response)) sample_world))))
  /\ NoDup (map Todo.id
              (todos (state (exec (addTodo (sample_env (Resolved tt))) sample_world)))).
Proof.
  split.
  - destruct (proj1 collection_ids_unique sample_response sample_world sample_user
                eq_refl) as (H & _ & _).
    exact H.
  - apply (proj2 collection_ids_unique).
    simpl. repeat constructor; simpl; intuition discriminate.
Defined.

(** ** Failure of the store *)

(** C4. When the store call of [addTodo], [toggleTodo] or [deleteTodo]
    rejects, the collection is left exactly as it was and an error toast is
    shown. The store call is issued, and so can reject, when the trimmed
    title is not empty and a user is signed in ([addTodo]) and when the id
    is not empty ([toggleTodo]). *)
Theorem store_rejection_keeps_collection :
  (forall env w u e,
      JsString.trim (newTodo (state w)) <> "" ->
      user (state w) = Some u ->
      create_settles env = Rejected e ->
      let w' := exec (addTodo env) w in
      todos (state w') = todos (state w)
      /\ exists events, appended w w' events
                        /\ In (EvStore (DbCreate (persistedTodo env (state w) (User.id u))))
                              events
                        /\ In (EvToastError "Failed to add todo") events)
  /\ (forall id completed w e,
      id <> "" ->
      let w' := exec (toggleTodo (Rejected e) id completed) w in
      todos (state w') = todos (state w)
      /\ exists events, appended w w' events
                        /\ In (EvStore (DbUpdate id completed)) events
                        /\ In (EvToastError "Failed to update todo") events)
  /\ (forall id w e,
      let w' := exec (deleteTodo (Rejected e) id) w in
      todos (state w') = todos (state w)
      /\ exists events, appended w w' events
                        /\ In (EvStore (DbDelete id)) events
                        /\ In (EvToastError "Failed to delete todo") events).
Proof.
  unfold appended, exec. split; [| split].
  - intros env w u e Hb Hu Hc.
    rewrite (addTodo_rejected env w u e) by assumption. simpl.
    split; [reflexivity |]. eexists. split; [reflexivity |].
    simpl. tauto.
  - intros id completed w e Hid. rewrite toggleTodo_rejected by assumption. simpl.
    split; [reflexivity |]. eexists. split; [reflexivity |]. simpl. auto.
  - intros id w e. rewrite deleteTodo_rejected. simpl.
    split; [reflexivity |]. eexists. split; [reflexivity |]. simpl. auto.
Qed.

Lemma store_rejection_keeps_collection_witness :
  todos (state (exec (addTodo (sample_env (Rejected (Rejection "offline")))) sample_world))
  = todos (state sample_world)
  /\ todos (state (exec (toggleTodo (Rejected (Rejection "offline")) "a" true) sample_world))
     = todos (state sample_world)
  /\ todos (state (exec (deleteTodo (Rejected (Rejection "offline")) "missing") sample_world))
     = todos (state sample_world).
Proof.
  destruct store_rejection_keeps_collection as (Hadd & Htoggle & Hdelete).
  split; [| split].
  - apply (Hadd (sample_env (Rejected (Rejection "offline"))) sample_world
             sample_user (Rejection "offline"));
      [discriminate | reflexivity | reflexivity].
  - apply (Htoggle "a" true sample_world (Rejection "offline")). discriminate.
  - apply (Hdelete "missing" sample_world (Rejection "offline")).
Defined.

(** ** Creation *)

(** C5. When the trimmed title is not empty and the store accepts the new
    record, [addTodo] puts exactly one new task at the front of the
    collection, before the previous entries minus any that had the new id.
    The new task carries the generated id, the submitted title and
    description, the labels the two classifiers return, and
    [completed = false]; the success toast names the assigned category. *)
Theorem create_inserts_at_front env w u x :
  JsString.trim (newTodo (state w)) <> "" ->
  user (state w) = Some u ->
  create_settles env = Resolved x ->
  let w' := exec (addTodo env) w in
  let title := newTodo (state w) in
  let description := newDescription (state w) in
  exists created,
    todos (state w') =
      created :: filter (fun t => negb (strict_equals (Todo.id t)
                                          (PString (randomUUID env))))
                        (todos (state w))
    /\ Todo.id created = PString (randomUUID env)
    /\ Todo.title created = title
    /\ Todo.description created = description
    /\ eval (categorizeTodo (category_settles env) title description) w
       = Normal (Todo.category created)
    /\ eval (prioritizeTodo (priority_settles env) title description) w
       = Normal (Todo.priority created)
    /\ Todo.completed created = false
    /\ (exists events,
          appended w w' events
          /\ In (EvStore (DbCreate (persistedTodo env (state w) (User.id u)))) events
          /\ In (EvToastSuccess
                   (String.append "Todo added and auto-categorized as "
                      (String.append (Todo.category created) "!"))) events
          /\ forall message, ~ In (EvToastError message) events).
Proof.
  intros Hb Hu Hc w' title description.
  exists (createdTodo env (state w) (User.id u)).
  subst w' title description. unfold exec, appended.
  rewrite (addTodo_resolved env w u x) by assumption. simpl.
  rewrite categorizeTodo_returns, prioritizeTodo_returns.
  repeat (split; [reflexivity |]).
  eexists. split; [reflexivity |]. simpl.
  split; [tauto |]. split; [tauto |].
  intros message [H | [H | [H | [H | []]]]]; discriminate.
Qed.

(** The scenario of the specification: "Buy milk", classified as
    shopping and low. *)
Lemma create_inserts_at_front_witness :
  exists created,
    todos (state (exec (addTodo (sample_env (Resolved tt))) sample_world)) =
      created :: todos (state sample_world)
    /\ Todo.title created = "Buy milk"
    /\ Todo.category created = "shopping"
    /\ Todo.priority created = "low"
    /\ Todo.completed created = false.
Proof.
  destruct (create_inserts_at_front (sample_env (Resolved tt)) sample_world
              sample_user tt)
    as (created & Hcol & _ & Htitle & _ & Hcat & Hpri & Hdone & _);
    [discriminate | reflexivity | reflexivity |].
  exists created.
  split; [exact Hcol |]. split; [exact Htitle |].
  split; [injection Hcat as <-; reflexivity |].
  split; [injection Hpri as <-; reflexivity | exact Hdone].
Defined.

(** ** Toggling completion *)

(** C7, as the code has it. With the empty id, [toggleTodo] does nothing
    at all, however the store would have settled: no update call is
    issued, nothing is shown, and the collection is unchanged. *)
Theorem toggle_empty_id_is_noop (settles : outcome unit) (completed : bool) (w : World) :
  exec (toggleTodo settles "" completed) w = w
  /\ eval (toggleTodo settles "" completed) w = Normal tt
  /\ update_calls (trace (exec (toggleTodo settles "" completed) w))
     = update_calls (trace w)
  /\ todos (state (exec (toggleTodo settles "" completed) w)) = todos (state w).
Proof. repeat split. Qed.

(** C7, as stated, fails: an id of one space is blank, yet [toggleTodo]
    calls the store with it. The guard [if (!id) return] tests for the empty
    string only. *)
Lemma toggle_whitespace_id_calls_store :
  JsString.trim " " = ""
  /\ trace (exec (toggleTodo (Resolved tt) " " true) (mkWorld initialState [] []))
     = [EvStore (DbUpdate " " true); EvToastSuccess "Todo completed!"]
  /\ update_calls
       (trace (exec (toggleTodo (Resolved tt) " " true) (mkWorld initialState [] [])))
     <> update_calls (trace (mkWorld initialState [] [])).
Proof. split; [reflexivity |]. split; [reflexivity | discriminate]. Qed.

Lemma toggled_frame id completed (l : list Todo.t) :
  Forall2 (fun t t' =>
             same_but_completed t t'
             /\ (Todo.id t <> PString id -> t' = t)
             /\ (Todo.id t = PString id -> Todo.completed t' = completed))
          l (toggled id completed l).
Proof.
  induction l as [| t l IH]; simpl; constructor; [| exact IH].
  destruct (strict_equals (Todo.id t) (PString id)) eqn:E.
  - apply strict_equals_string in E.
    split; [repeat split |]. split; [contradiction | reflexivity].
  - split; [repeat split |]. split; [reflexivity |].
    intros H. apply strict_equals_string in H. congruence.
Qed.

(** C9. A successful [toggleTodo] maps the collection position by
    position, so its length and order are kept; a task whose id differs is
    untouched; the task whose id matches gets the new [completed] and keeps
    its id, title, description, category, priority, created_at, due_date
    and owner. *)
Theorem toggle_changes_only_completed (x : unit) (id : string) (completed : bool)
  (w : World) :
  id <> "" ->
  let before := todos (state w) in
  let after := todos (state (exec (toggleTodo (Resolved x) id completed) w)) in
  length after = length before
  /\ Forall2 (fun t t' =>
                same_but_completed t t'
                /\ (Todo.id t <> PString id -> t' = t)
                /\ (Todo.id t = PString id -> Todo.completed t' = completed))
             before after.
Proof.
  intros Hid before after. subst before after. unfold exec.
  rewrite toggleTodo_resolved by assumption. simpl.
  split; [apply length_map | apply toggled_frame].
Qed.

Lemma toggle_changes_only_completed_witness :
  let before := todos (state sample_world) in
  let after := todos (state (exec (toggleTodo (Resolved tt) "a" true) sample_world)) in
  length after = length before
  /\ Forall2 (fun t t' =>
                same_but_completed t t'
                /\ (Todo.id t <> PString "a" -> t' = t)
                /\ (Todo.id t = PString "a" -> Todo.completed t' = true))
             before after.
Proof.
  apply (toggle_changes_only_completed tt "a" true sample_world). discriminate.
Defined.

(** ** The drafts of the add-task form *)

Lemma create_succeeds_dec env w : create_succeeds env w \/ ~ create_succeeds env w.
Proof.
  unfold create_succeeds.
  destruct (string_dec (JsString.trim (newTodo (state w))) "") as [Hb | Hb];
    [right; tauto |].
  destruct (user (state w)) as [u |];
    [| right; intros (_ & [u H] & _); discriminate].
  destruct (create_settles env) as [x | e];
    [| right; intros (_ & _ & [x H]); discriminate].
  left. eauto.
Qed.

(** C10. [addTodo] clears the two drafts when it succeeds and leaves them
    as submitted otherwise, in particular when the store rejects the new
    record; so, the submitted title not being blank, the drafts are cleared
    exactly when the creation succeeds. *)
Theorem drafts_cleared_iff_create_succeeds (env : AddEnv) (w : World) :
  let w' := exec (addTodo env) w in
  (create_succeeds env w -> drafts w' = ("", ""))
  /\ (~ create_succeeds env w -> drafts w' = drafts w)
  /\ (forall e, create_settles env = Rejected e -> drafts w' = drafts w)
  /\ (JsString.trim (newTodo (state w)) <> "" ->
      (drafts w' = ("", "") <-> create_succeeds env w)).
Proof.
  intros w'. subst w'. unfold exec.
  assert (create_succeeds env w -> drafts (snd (addTodo env w)) = ("", "")) as Hyes.
  { intros (Hb & [u Hu] & [x Hc]).
    rewrite (addTodo_resolved env w u x) by assumption. reflexivity. }
  assert (~ create_succeeds env w -> drafts (snd (addTodo env w)) = drafts w) as Hno.
  { unfold create_succeeds. intros Hn.
    destruct (string_dec (JsString.trim (newTodo (state w))) "") as [Hb | Hb].
    { rewrite addTodo_blank by assumption. reflexivity. }
    destruct (user (state w)) as [u |] eqn:Hu.
    2: { rewrite addTodo_signed_out by assumption. reflexivity. }
    destruct (create_settles env) as [x | e] eqn:Hc.
    - exfalso. apply Hn. eauto.
    - rewrite (addTodo_rejected env w u e) by assumption. reflexivity. }
  split; [exact Hyes |]. split; [exact Hno |]. split.
  - intros e He. apply Hno. intros (_ & _ & [x Hx]). congruence.
  - intros Hb. split; [| exact Hyes].
    intros Hclear. destruct (create_succeeds_dec env w) as [H | H]; [exact H |].
    exfalso. rewrite (Hno H) in Hclear. unfold drafts in Hclear.
    injection Hclear as Ht _. rewrite Ht in Hb. apply Hb. reflexivity.
Qed.

Lemma drafts_cleared_iff_create_succeeds_witness :
  drafts (exec (addTodo (sample_env (Resolved tt))) sample_world) = ("", "")
  /\ drafts (exec (addTodo (sample_env (Rejected (Rejection "offline")))) sample_world)
     = ("Buy milk", "").
Proof.
  split.
  - apply (proj1 (drafts_cleared_iff_create_succeeds (sample_env (Resolved tt))
                    sample_world)).
    unfold create_succeeds. split; [discriminate |]. split; [exists sample_user | exists tt]; reflexivity.
  - apply (proj1 (proj2 (proj2 (drafts_cleared_iff_create_succeeds
                                  (sample_env (Rejected (Rejection "offline")))
                                  sample_world)))
             (Rejection "offline")).
    reflexivity.
Defined.

(** ** Reachable states and the invariant of the collection *)

Lemma trim_nonempty (s : string) : JsString.trim s <> "" -> s <> "".
Proof. intros H E. apply H. rewrite E. reflexivity. Qed.

Lemma toggled_ids id completed l : map Todo.id (toggled id completed l) = map Todo.id l.
Proof.
  unfold toggled. rewrite map_map. apply map_ext. intros t.
  destruct (strict_equals (Todo.id t) (PString id)); reflexivity.
Qed.

Lemma ids_present_map (l l' : list Todo.t) :
  map Todo.id l' = map Todo.id l -> ids_present l -> ids_present l'.
Proof.
  unfold ids_present. rewrite <- (Forall_map Todo.id (fun k => exists s, k = PString s /\ s <> "")).
  rewrite <- (Forall_map Todo.id (fun k => exists s, k = PString s /\ s <> "") l').
  intros ->. auto.
Qed.

Lemma ids_present_filter p l : ids_present l -> ids_present (filter p l).
Proof.
  unfold ids_present. rewrite !Forall_forall. intros H t Ht.
  apply filter_In in Ht. apply H. tauto.
Qed.

Lemma loadTodos_signed_out settles w :
  user (state w) = None -> todos (state (exec (loadTodos settles) w)) = todos (state w).
Proof.
  intros Hu. unfold exec, loadTodos. cbv [bind Monad_M get_state]. rewrite Hu.
  reflexivity.
Qed.

Lemma loaded_ok (delivered : list Todo.t) :
  collection_ok (unique_by_id (filter valid_id delivered)).
Proof.
  assert (Forall (fun t => is_string (Todo.id t)) (filter valid_id delivered)) as Hs.
  { apply Forall_forall. intros t Ht. apply filter_In in Ht.
    destruct Ht as [_ Hv]. apply valid_id_spec in Hv.
    destruct Hv as (s & Hs & _). exists s. exact Hs. }
  destruct (unique_by_id_spec _ Hs) as (Hnd & _ & Hent).
  split; [exact Hnd |].
  apply Forall_forall. intros t Ht. apply Hent in Ht. apply filter_In in Ht.
  destruct Ht as [_ Hv]. apply valid_id_spec in Hv.
  destruct Hv as (s & Hid & Hne). exists s. split; [exact Hid |].
  apply trim_nonempty. exact Hne.
Qed.

Lemma perform_keeps_collection_ok a w :
  action_ok a ->
  collection_ok (todos (state w)) ->
  collection_ok (todos (state (exec (perform a) w))).
Proof.
  intros Ha [Hnd Hids]. destruct a as [u | settles | v | v | v | v | env | settles id c | settles id];
    simpl perform; try (split; assumption).
  - (* Load *)
    destruct (user (state w)) as [u |] eqn:Hu.
    + destruct settles as [response | e]; unfold exec.
      * rewrite (loadTodos_resolved response w u Hu). apply loaded_ok.
      * rewrite (loadTodos_rejected e w u Hu). split; assumption.
    + rewrite loadTodos_signed_out by assumption. split; assumption.
  - (* Add *)
    split; [apply addTodo_keeps_NoDup; exact Hnd |].
    simpl in Ha. unfold exec.
    destruct (string_dec (JsString.trim (newTodo (state w))) "") as [Hb | Hb].
    { rewrite addTodo_blank by assumption. exact Hids. }
    destruct (user (state w)) as [u |] eqn:Hu.
    2: { rewrite addTodo_signed_out by assumption. exact Hids. }
    destruct (create_settles env) as [x | e] eqn:Hc.
    + rewrite (addTodo_resolved env w u x) by assumption.
      constructor.
      * exists (randomUUID env). split; [reflexivity |].
        intros E. rewrite E in Ha. discriminate.
      * apply ids_present_filter. exact Hids.
    + rewrite (addTodo_rejected env w u e) by assumption. exact Hids.
  - (* Toggle *)
    destruct (string_dec id "") as [-> | Hid]; [split; assumption |].
    unfold exec. destruct settles as [x | e].
    + rewrite toggleTodo_resolved by assumption. simpl. split.
      * rewrite toggled_ids. exact Hnd.
      * apply (ids_present_map (todos (state w))); [apply toggled_ids | exact Hids].
    + rewrite toggleTodo_rejected by assumption. split; assumption.
  - (* Delete *)
    unfold exec. destruct settles as [x | e].
    + rewrite deleteTodo_resolved. simpl. split.
      * apply filter_keeps_ids_unique. exact Hnd.
      * apply ids_present_filter. exact Hids.
    + rewrite deleteTodo_rejected. split; assumption.
Qed.

(** In every reachable state the collection holds no id twice and every
    id is a non-empty string. *)
Lemma reachable_collection_ok w : reachable w -> collection_ok (todos (state w)).
Proof.
  induction 1 as [| w a _ IH Ha].
  - split; constructor.
  - apply perform_keeps_collection_ok; assumption.
Qed.

Lemma NoDup_map_injective {A B} (f : A -> B) (l : list A) a b :
  NoDup (map f l) -> In a l -> In b l -> f a = f b -> a = b.
Proof.
  induction l as [| x l IH]; simpl; intros Hnd Ha Hb E; [contradiction |].
  inversion Hnd as [| ? ? Hnot Hnd']; subst.
  destruct Ha as [-> | Ha], Hb as [-> | Hb]; [reflexivity | | | auto].
  - exfalso. apply Hnot. rewrite E. apply in_map. exact Hb.
  - exfalso. apply Hnot. rewrite <- E. apply in_map. exact Ha.
Qed.

Lemma with_completed_same (t : Todo.t) c :
  Todo.with_completed (Todo.with_completed t c) (Todo.completed t) = t.
Proof. destruct t; reflexivity. Qed.

Lemma toggled_nth id completed l n t :
  nth_error l n = Some t -> Todo.id t = PString id ->
  nth_error (toggled id completed l) n = Some (Todo.with_completed t completed).
Proof.
  intros Hn Hid. unfold toggled. rewrite nth_error_map, Hn. simpl.
  rewrite (proj2 (strict_equals_string (Todo.id t) id) Hid). reflexivity.
Qed.

Lemma toggled_back id l t :
  NoDup (map Todo.id l) -> In t l -> Todo.id t = PString id ->
  toggled id (Todo.completed t) (toggled id (negb (Todo.completed t)) l) = l.
Proof.
  intros Hnd Hin Hid. unfold toggled. rewrite map_map.
  rewrite <- (map_id l) at 2. apply map_ext_in. intros t' Hin'.
  destruct (strict_equals (Todo.id t') (PString id)) eqn:E.
  - apply strict_equals_string in E.
    assert (t' = t) as -> by
      (apply (NoDup_map_injective Todo.id l); [assumption .. | congruence]).
    simpl. rewrite (proj2 (strict_equals_string (Todo.id t) id) Hid).
    apply with_completed_same.
  - rewrite E. reflexivity.
Qed.

(** C8. For a task at any position of the collection of a reachable
    state, toggling it to the negated completion state and then back, the
    store accepting both, first negates its [completed] and then restores
    the task (and the whole collection); the two runs issue exactly two
    store calls, both updates of that task. *)
Theorem toggle_twice_restores (w : World) (n : nat) (t : Todo.t) :
  reachable w ->
  nth_error (todos (state w)) n = Some t ->
  exists id,
    Todo.id t = PString id
    /\ let c := Todo.completed t in
       let w1 := exec (toggleTodo (Resolved tt) id (negb c)) w in
       let w2 := exec (toggleTodo (Resolved tt) id c) w1 in
       nth_error (todos (state w1)) n = Some (Todo.with_completed t (negb c))
       /\ nth_error (todos (state w2)) n = Some t
       /\ todos (state w2) = todos (state w)
       /\ exists events,
            appended w w2 events
            /\ store_calls events =
               [EvStore (DbUpdate id (negb c)); EvStore (DbUpdate id c)].
Proof.
  intros Hreach Hn.
  destruct (reachable_collection_ok w Hreach) as [Hnd Hids].
  assert (In t (todos (state w))) as Hin by (eapply nth_error_In; exact Hn).
  unfold ids_present in Hids. rewrite Forall_forall in Hids.
  destruct (Hids t Hin) as (id & Hid & Hne).
  exists id. split; [exact Hid |]. intros c w1 w2. subst c w1 w2.
  unfold exec, appended.
  rewrite !toggleTodo_resolved by assumption. simpl.
  rewrite (toggled_back id _ t Hnd Hin Hid).
  split; [apply toggled_nth; assumption |].
  split; [exact Hn |]. split; [reflexivity |].
  eexists. split; [rewrite <- app_assoc; reflexivity |].
  reflexivity.
Qed.

Lemma sample_world_reachable : reachable sample_world.
Proof.
  pose (r := JArray [sample_task (PString "a") "Call the bank" "work" false;
                     sample_task (PString "b") "Water the plants" "home" true]).
  change sample_world with
    (exec (perform (TypeTitle "Buy milk"))
       (exec (perform (Load (Resolved r)))
          (exec (perform (AuthStateChanged (Some sample_user)))
             (mkWorld initialState [] [])))).
  repeat (apply reachable_step; [| exact I]). apply reachable_initial.
Defined.

Lemma toggle_twice_restores_witness :
  exists id,
    PString "a" = PString id
    /\ let w1 := exec (toggleTodo (Resolved tt) id true) sample_world in
       let w2 := exec (toggleTodo (Resolved tt) id false) w1 in
       nth_error (todos (state w1)) 0
       = Some (sample_task (PString "a") "Call the bank" "work" true)
       /\ nth_error (todos (state w2)) 0
          = Some (sample_task (PString "a") "Call the bank" "work" false)
       /\ todos (state w2) = todos (state sample_world)
       /\ exists events,
            appended sample_world w2 events
            /\ store_calls events =
               [EvStore (DbUpdate id true); EvStore (DbUpdate id false)].
Proof.
  exact (toggle_twice_restores sample_world 0
           (sample_task (PString "a") "Call the bank" "work" false)
           sample_world_reachable eq_refl).
Defined.

(** ** Filtered view *)

Section StringFacts.
Local Open Scope string_scope.

Lemma prefix_spec (t s : string) :
  String.prefix t s = true <-> exists post, s = t ++ post.
Proof.
  revert s. induction t as [| a t IH]; intros s.
  - destruct s; simpl; split; eauto.
  - destruct s as [| b s]; simpl.
    + split; [discriminate | intros [post H]; discriminate].
    + destruct (ascii_dec a b) as [-> | N].
      * rewrite IH. split; intros [post H]; exists post; congruence.
      * split; [discriminate | intros [post H]; congruence].
Qed.

Lemma includes_spec (s t : string) :
  JsString.includes s t = true <-> exists pre post, s = pre ++ t ++ post.
Proof.
  induction s as [| c s IH]; cbn [JsString.includes].
  - rewrite orb_false_r, prefix_spec. split.
    + intros [post H]. exists "", post. exact H.
    + intros (pre & post & H). destruct pre; [eauto | discriminate].
  - rewrite orb_true_iff, prefix_spec, IH. split.
    + intros [[post H] | (pre & post & H)].
      * exists "", post. exact H.
      * exists (String c pre), post. simpl. congruence.
    + intros (pre & post & H). destruct pre as [| c' pre]; simpl in H.
      * left. eauto.
      * right. exists pre, post. congruence.
Qed.

End StringFacts.

Lemma includes_occurs (text term : string) :
  JsString.includes text term = true <-> occurs_in term text.
Proof. unfold occurs_in. apply includes_spec. Qed.

(** *** The same test on UTF-16 strings *)



(** On a code unit below 256 the wider lower-casing is that of the
    Latin-1 model, and the code unit is not the capital sigma. *)
Lemma lower_code_unit_agrees (a : ascii) :
  N.eqb (N_of_ascii a) Utf16.capital_sigma = false
  /\ (if Utf16.is_upper (N_of_ascii a) then (N_of_ascii a + 32)%N else N_of_ascii a)
     = N_of_ascii (JsString.lower_char a).
Proof.
  destruct a as [[] [] [] [] [] [] [] []]; vm_compute; split; reflexivity.
Qed.

Lemma lower_from_agrees (after_cased : bool) (s : string) :
  Utf16.lower_from after_cased (Utf16.of_string s)
  = Utf16.of_string (JsString.toLowerCase s).
Proof.
  revert after_cased. induction s as [| a s IH]; intros after_cased; [reflexivity |].
  change (Utf16.of_string (String a s)) with (N_of_ascii a :: Utf16.of_string s).
  cbn [Utf16.lower_from JsString.toLowerCase].
  destruct (lower_code_unit_agrees a) as [Hsigma Hlow].
  rewrite Hsigma, Hlow, IH. reflexivity.
Qed.

Lemma code_unit_eqb (a b : ascii) :
  N.eqb (N_of_ascii a) (N_of_ascii b) = true <-> a = b.
Proof.
  rewrite N.eqb_eq. split; [| intros ->; reflexivity].
  intros H. rewrite <- (ascii_N_embedding a), <- (ascii_N_embedding b), H.
  reflexivity.
Qed.

Lemma starts_with_agrees (t s : string) :
  Utf16.starts_with (Utf16.of_string t) (Utf16.of_string s) = String.prefix t s.
Proof.
  revert s. induction t as [| a t IH]; intros s.
  - destruct s; reflexivity.
  - destruct s as [| b s]; [reflexivity |].
    change (Utf16.starts_with (Utf16.of_string (String a t))
                              (Utf16.of_string (String b s)))
      with (N.eqb (N_of_ascii a) (N_of_ascii b)
            && Utf16.starts_with (Utf16.of_string t) (Utf16.of_string s)).
    simpl String.prefix. rewrite IH.
    destruct (ascii_dec a b) as [-> | Hne].
    + rewrite (proj2 (code_unit_eqb b b) eq_refl). reflexivity.
    + destruct (N.eqb (N_of_ascii a) (N_of_ascii b)) eqn:E; [| reflexivity].
      apply code_unit_eqb in E. contradiction.
Qed.

Lemma includes_agrees (s t : string) :
  Utf16.includes (Utf16.of_string s) (Utf16.of_string t) = JsString.includes s t.
Proof.
  induction s as [| c s IH].
  - cbn [JsString.includes]. change (Utf16.of_string "") with (@nil N).
    cbn [Utf16.includes]. rewrite <- starts_with_agrees. reflexivity.
  - cbn [JsString.includes].
    change (Utf16.of_string (String c s)) with (N_of_ascii c :: Utf16.of_string s).
    cbn [Utf16.includes]. rewrite IH.
    change (N_of_ascii c :: Utf16.of_string s) with (Utf16.of_string (String c s)).
    rewrite starts_with_agrees. reflexivity.
Qed.

(** Restricted to strings of code units below 256, the test on UTF-16
    strings is the test of the model. *)
Lemma utf16_matches_agrees (searchTerm selectedCategory : string) (t : Todo.t) :
  Utf16.matches (Utf16.of_string searchTerm) selectedCategory
    (Utf16.of_string (Todo.title t)) (Utf16.of_string (Todo.description t))
    (Todo.category t)
  = matches searchTerm selectedCategory t.
Proof.
  unfold Utf16.matches, matches, Utf16.toLowerCase.
  rewrite !lower_from_agrees, !includes_agrees. reflexivity.
Qed.



(** A scenario of the specification: the term "milk" with the filter
    "all" finds the task whose description, not its title, holds "Milk". *)
Example filtered_view_scenario :
  filteredTodos
    (mkState [Todo.mk (PString "a") "Groceries" "Get Milk and eggs" "shopping"
                      "low" false "2024-01-01T00:00:00.000Z" None "user-1";
              Todo.mk (PString "b") "Call the bank" "" "work"
                      "high" false "2024-01-01T00:00:00.000Z" None "user-1"]
             (Some sample_user) "" "" "milk" "all" false false)
  = [Todo.mk (PString "a") "Groceries" "Get Milk and eggs" "shopping"
             "low" false "2024-01-01T00:00:00.000Z" None "user-1"].
Proof. reflexivity. Qed.

(* ===================================================================== *)
(** * Further properties of the controller and the view *)
(* ===================================================================== *)

(** ** The counters *)

Lemma filter_split_length {A} (p : A -> bool) (l : list A) :
  length (filter p l) + length (filter (fun x => negb (p x)) l) = length l.
Proof.
  induction l as [| a l IH]; simpl; [reflexivity |].
  destruct (p a); simpl; lia.
Qed.

Lemma filter_narrower_length {A} (p q : A -> bool) (l : list A) :
  (forall x, p x = true -> q x = true) ->
  length (filter p l) <= length (filter q l).
Proof.
  intros Hpq. induction l as [| a l IH]; simpl; [lia |].
  destruct (p a) eqn:Hp.
  - rewrite (Hpq a Hp). simpl. lia.
  - destruct (q a); simpl; lia.
Qed.

(** X1. The three counters agree with each other: the completed tasks are
    at most all tasks, so "Remaining" is never negative and counts exactly
    the tasks not completed; completed and remaining add up to the total;
    and the high-priority counter never exceeds the remaining one. *)
Theorem counters_consistent (s : AppState) :
  (0 <= completedCount s <= totalCount s)%Z
  /\ remainingCount s =
     js_length (filter (fun t => negb (is_completed t)) (safeTodos s))
  /\ (completedCount s + remainingCount s = totalCount s)%Z
  /\ (0 <= highPriorityCount s <= remainingCount s)%Z.
Proof.
  unfold remainingCount, completedCount, totalCount, highPriorityCount, js_length.
  pose proof (filter_split_length is_completed (safeTodos s)) as Hsplit.
  pose proof (filter_narrower_length
                (fun todo => String.eqb (Todo.priority todo) "high"
                             && negb (is_completed todo))
                (fun t => negb (is_completed t)) (safeTodos s)) as Hhigh.
  assert (length (filter (fun todo => String.eqb (Todo.priority todo) "high"
                                      && negb (is_completed todo)) (safeTodos s))
          <= length (filter (fun t => negb (is_completed t)) (safeTodos s))) as Hle.
  { apply Hhigh. intros x Hx. apply andb_true_iff in Hx. tauto. }
  repeat split; lia.
Qed.

(** ** One task per id: what toggling and deleting do to it *)

Lemma toggled_absent id completed l :
  id_absent id l -> toggled id completed l = l.
Proof.
  intros Habs. unfold toggled. rewrite <- (map_id l) at 2.
  apply map_ext_in. intros t Ht.
  destruct (strict_equals (Todo.id t) (PString id)) eqn:E; [| reflexivity].
  apply strict_equals_string in E. exfalso. exact (Habs t Ht E).
Qed.

Lemma without_absent id l : id_absent id l -> without id l = l.
Proof.
  intros Habs. unfold without. induction l as [| t l IH]; simpl; [reflexivity |].
  destruct (strict_equals (Todo.id t) (PString id)) eqn:E; simpl.
  - apply strict_equals_string in E. exfalso. apply (Habs t); simpl; auto.
  - f_equal. apply IH. intros t' Ht'. apply Habs. simpl. auto.
Qed.

(** In a collection without duplicate ids, a task stands alone with its
    id: the tasks before and after it have other ids. *)
Lemma alone_with_id (l : list Todo.t) (t : Todo.t) id :
  NoDup (map Todo.id l) -> In t l -> Todo.id t = PString id ->
  exists before after,
    l = before ++ t :: after /\ id_absent id before /\ id_absent id after.
Proof.
  intros Hnd Hin Hid. destruct (in_split t l Hin) as (before & after & ->).
  exists before, after. split; [reflexivity |].
  rewrite map_app in Hnd. simpl in Hnd.
  apply NoDup_remove_2 in Hnd. rewrite in_app_iff in Hnd.
  split; intros t' Ht' E; apply Hnd; [left | right];
    apply in_map_iff; exists t'; (split; [congruence | exact Ht']).
Qed.

Lemma toggled_app id completed l1 l2 :
  toggled id completed (l1 ++ l2) = toggled id completed l1 ++ toggled id completed l2.
Proof. unfold toggled. apply map_app. Qed.

Lemma without_app id l1 l2 : without id (l1 ++ l2) = without id l1 ++ without id l2.
Proof. unfold without. apply filter_app. Qed.

Lemma toggled_alone id completed before t after :
  Todo.id t = PString id -> id_absent id before -> id_absent id after ->
  toggled id completed (before ++ t :: after)
  = before ++ Todo.with_completed t completed :: after.
Proof.
  intros Hid Hb Ha. rewrite toggled_app. simpl.
  rewrite (toggled_absent id completed before Hb).
  change (map _ after) with (toggled id completed after).
  rewrite (toggled_absent id completed after Ha).
  rewrite (proj2 (strict_equals_string (Todo.id t) id) Hid). reflexivity.
Qed.

Lemma without_alone id before t after :
  Todo.id t = PString id -> id_absent id before -> id_absent id after ->
  without id (before ++ t :: after) = before ++ after.
Proof.
  intros Hid Hb Ha. rewrite without_app. simpl.
  rewrite (proj2 (strict_equals_string (Todo.id t) id) Hid). simpl.
  change (filter _ after) with (without id after).
  rewrite (without_absent id before Hb), (without_absent id after Ha). reflexivity.
Qed.

Lemma is_completed_flag (t : Todo.t) : is_completed t = Todo.completed t.
Proof. unfold is_completed. destruct (Todo.completed t); reflexivity. Qed.

Lemma completed_count_app (l1 l2 : list Todo.t) :
  length (filter is_completed (l1 ++ l2))
  = length (filter is_completed l1) + length (filter is_completed l2).
Proof. rewrite filter_app, length_app. reflexivity. Qed.

(** X2. In a reachable state, ticking or unticking a task of the
    collection (the store accepting the update) keeps the total and moves
    the completed counter by exactly one: up when the task was not
    completed, down when it was. *)
Theorem toggle_moves_completed_by_one (w : World) (t : Todo.t) (id : string) (x : unit) :
  reachable w ->
  In t (todos (state w)) ->
  Todo.id t = PString id ->
  let w' := exec (toggleTodo (Resolved x) id (negb (Todo.completed t))) w in
  totalCount (state w') = totalCount (state w)
  /\ completedCount (state w')
     = (completedCount (state w) + (if Todo.completed t then -1 else 1))%Z
  /\ remainingCount (state w')
     = (remainingCount (state w) - (if Todo.completed t then -1 else 1))%Z.
Proof.
  intros Hreach Hin Hid w'. subst w'.
  destruct (reachable_collection_ok w Hreach) as [Hnd Hids].
  assert (id <> "") as Hne.
  { unfold ids_present in Hids. rewrite Forall_forall in Hids.
    destruct (Hids t Hin) as (s & Hs & Hn). congruence. }
  unfold exec. rewrite toggleTodo_resolved by assumption.
  destruct (alone_with_id _ t id Hnd Hin Hid) as (before & after & Hl & Hb & Ha).
  unfold remainingCount, completedCount, totalCount, js_length, safeTodos. simpl.
  rewrite Hl, (toggled_alone id _ before t after Hid Hb Ha).
  rewrite !completed_count_app, !length_app. simpl.
  rewrite !is_completed_flag. simpl.
  destruct (Todo.completed t); simpl; lia.
Qed.

Lemma toggle_moves_completed_by_one_witness :
  let w' := exec (toggleTodo (Resolved tt) "a" true) sample_world in
  totalCount (state w') = totalCount (state sample_world)
  /\ completedCount (state w') = (completedCount (state sample_world) + 1)%Z
  /\ remainingCount (state w') = (remainingCount (state sample_world) - 1)%Z.
Proof.
  exact (toggle_moves_completed_by_one sample_world
           (sample_task (PString "a") "Call the bank" "work" false) "a" tt
           sample_world_reachable (or_introl eq_refl) eq_refl).
Defined.

(** ** Deleting *)

Lemma without_In id l t :
  In t (without id l) <-> In t l /\ Todo.id t <> PString id.
Proof.
  unfold without. rewrite filter_In, negb_true_iff. split; intros [Hin H]; split; auto.
  - intros E. apply strict_equals_string in E. congruence.
  - destruct (strict_equals (Todo.id t) (PString id)) eqn:E; [| reflexivity].
    apply strict_equals_string in E. contradiction.
Qed.

(** X3. When the store accepts a delete, exactly the tasks with that id
    leave the collection: a task is in the collection afterwards if and
    only if it was there before and has another id. Deleting an id that no
    task has leaves the collection as it was, and in a reachable state
    deleting the id of a task of the collection lowers the total by one. *)
Theorem delete_removes_exactly_that_id (x : unit) (id : string) (w : World) :
  let w' := exec (deleteTodo (Resolved x) id) w in
  (forall t, In t (todos (state w')) <->
             In t (todos (state w)) /\ Todo.id t <> PString id)
  /\ (id_absent id (todos (state w)) -> todos (state w') = todos (state w))
  /\ (reachable w ->
      (exists t, In t (todos (state w)) /\ Todo.id t = PString id) ->
      totalCount (state w') = (totalCount (state w) - 1)%Z).
Proof.
  intros w'. subst w'. unfold exec. rewrite deleteTodo_resolved. simpl.
  split; [intros t; apply without_In |].
  split; [apply without_absent |].
  intros Hreach (t & Hin & Hid).
  destruct (reachable_collection_ok w Hreach) as [Hnd _].
  destruct (alone_with_id _ t id Hnd Hin Hid) as (before & after & Hl & Hb & Ha).
  unfold totalCount, js_length, safeTodos. simpl.
  rewrite Hl, (without_alone id before t after Hid Hb Ha), !length_app. simpl. lia.
Qed.

Lemma delete_removes_exactly_that_id_witness :
  todos (state (exec (deleteTodo (Resolved tt) "missing") sample_world))
  = todos (state sample_world)
  /\ totalCount (state (exec (deleteTodo (Resolved tt) "a") sample_world))
     = (totalCount (state sample_world) - 1)%Z.
Proof.
  split.
  - apply (proj1 (proj2 (delete_removes_exactly_that_id tt "missing" sample_world))).
    intros t [<- | [<- | []]]; discriminate.
  - apply (proj2 (proj2 (delete_removes_exactly_that_id tt "a" sample_world)));
      [exact sample_world_reachable |].
    eexists. split; [left; reflexivity | reflexivity].
Defined.

(** ** Toggling again, and toggling an id no task has *)

Lemma toggled_twice id c c' l :
  toggled id c' (toggled id c l) = toggled id c' l.
Proof.
  unfold toggled. rewrite map_map. apply map_ext. intros t.
  destruct (strict_equals (Todo.id t) (PString id)) eqn:E.
  - simpl. rewrite E. destruct t; reflexivity.
  - rewrite E. reflexivity.
Qed.

(** X4. The state of the last accepted toggle wins: after two accepted
    toggles of one id the collection is what the second toggle alone would
    have made it, so repeating a toggle changes nothing more. Toggling an
    id that no task has leaves the collection as it was, although the
    update call is issued and a success toast is shown. *)
Theorem toggle_last_state_wins (x y : unit) (id : string) (c c' : bool) (w : World) :
  id <> "" ->
  todos (state (exec (toggleTodo (Resolved y) id c')
                     (exec (toggleTodo (Resolved x) id c) w)))
  = todos (state (exec (toggleTodo (Resolved y) id c') w))
  /\ (id_absent id (todos (state w)) ->
      let w' := exec (toggleTodo (Resolved x) id c) w in
      todos (state w') = todos (state w)
      /\ appended w w'
           [EvStore (DbUpdate id c);
            EvToastSuccess (if c then "Todo completed!"
                            else "Todo marked as incomplete")]).
Proof.
  intros Hid. unfold exec, appended.
  rewrite !toggleTodo_resolved by assumption. simpl. split.
  - apply toggled_twice.
  - intros Habs. split; [apply toggled_absent; exact Habs | reflexivity].
Qed.

Lemma toggle_last_state_wins_witness :
  todos (state (exec (toggleTodo (Resolved tt) "a" true)
                     (exec (toggleTodo (Resolved tt) "a" true) sample_world)))
  = todos (state (exec (toggleTodo (Resolved tt) "a" true) sample_world))
  /\ todos (state (exec (toggleTodo (Resolved tt) "missing" true) sample_world))
     = todos (state sample_world).
Proof.
  destruct (toggle_last_state_wins tt tt "a" true true sample_world) as [H _];
    [discriminate |].
  destruct (toggle_last_state_wins tt tt "missing" true true sample_world) as [_ H'];
    [discriminate |].
  split; [exact H |]. apply H'.
  intros t [<- | [<- | []]]; discriminate.
Defined.

(** ** Creating, then deleting; the counters after creating *)

Lemma safeTodos_todos (s : AppState) : safeTodos s = todos s.
Proof. reflexivity. Qed.

Lemma addTodo_resolved_todos env w u x :
  JsString.trim (newTodo (state w)) <> "" ->
  user (state w) = Some u ->
  create_settles env = Resolved x ->
  todos (state (snd (addTodo env w)))
  = createdTodo env (state w) (User.id u) :: without (randomUUID env) (todos (state w)).
Proof.
  intros Hb Hu Hc. rewrite (addTodo_resolved env w u x) by assumption. reflexivity.
Qed.

Lemma deleteTodo_resolved_todos x id w :
  todos (state (snd (deleteTodo (Resolved x) id w))) = without id (todos (state w)).
Proof. rewrite deleteTodo_resolved. reflexivity. Qed.

Lemma without_again id l : without id (without id l) = without id l.
Proof.
  apply without_absent. intros t Ht. apply without_In in Ht. tauto.
Qed.

(** X5. Creating a task and then deleting it (the store accepting both)
    gives back the collection without any task of that id; when the
    generated id was not yet in the collection, that is the collection as
    it was before the creation. *)
Theorem create_then_delete_restores (env : AddEnv) (w : World) (u : User.t)
  (x y : unit) :
  JsString.trim (newTodo (state w)) <> "" ->
  user (state w) = Some u ->
  create_settles env = Resolved x ->
  let w2 := exec (deleteTodo (Resolved y) (randomUUID env)) (exec (addTodo env) w) in
  todos (state w2) = without (randomUUID env) (todos (state w))
  /\ (id_absent (randomUUID env) (todos (state w)) ->
      todos (state w2) = todos (state w)).
Proof.
  intros Hb Hu Hc w2. subst w2. unfold exec.
  rewrite deleteTodo_resolved_todos, (addTodo_resolved_todos env w u x) by assumption.
  assert (without (randomUUID env)
            (createdTodo env (state w) (User.id u)
               :: without (randomUUID env) (todos (state w)))
          = without (randomUUID env) (todos (state w))) as Hgo.
  { unfold without at 1. simpl. rewrite String.eqb_refl. simpl.
    apply without_again. }
  rewrite Hgo. split; [reflexivity | apply without_absent].
Qed.

Lemma create_then_delete_restores_witness :
  todos (state (exec (deleteTodo (Resolved tt) "0b5c1c2e-6f0a-4f63-9d1e-3a4b5c6d7e8f")
                     (exec (addTodo (sample_env (Resolved tt))) sample_world)))
  = todos (state sample_world).
Proof.
  apply (proj2 (create_then_delete_restores (sample_env (Resolved tt)) sample_world
                  sample_user tt tt ltac:(discriminate) eq_refl eq_refl)).
  intros t [<- | [<- | []]]; discriminate.
Defined.

(** X6. When the store accepts a new task whose generated id is not yet
    in the collection, the total and the remaining counters grow by one,
    the completed counter stays, and the high-priority counter grows by
    one exactly when the classifier assigned the priority [high]. *)
Theorem create_moves_counters (env : AddEnv) (w : World) (u : User.t) (x : unit) :
  JsString.trim (newTodo (state w)) <> "" ->
  user (state w) = Some u ->
  create_settles env = Resolved x ->
  id_absent (randomUUID env) (todos (state w)) ->
  let w' := exec (addTodo env) w in
  totalCount (state w') = (totalCount (state w) + 1)%Z
  /\ completedCount (state w') = completedCount (state w)
  /\ remainingCount (state w') = (remainingCount (state w) + 1)%Z
  /\ highPriorityCount (state w')
     = (highPriorityCount (state w)
        + (if String.eqb (assigned_priority env) "high" then 1 else 0))%Z.
Proof.
  intros Hb Hu Hc Habs w'. subst w'. unfold exec.
  unfold remainingCount, completedCount, totalCount, highPriorityCount, js_length.
  cbv [safeTodos isArray asArray].
  rewrite (addTodo_resolved_todos env w u x) by assumption.
  rewrite (without_absent _ _ Habs).
  cbn [filter]. rewrite !is_completed_flag.
  cbn [createdTodo Todo.priority Todo.completed negb].
  rewrite andb_true_r.
  destruct (String.eqb (assigned_priority env) "high"); cbn [length]; lia.
Qed.

Lemma create_moves_counters_witness :
  let w' := exec (addTodo (sample_env (Resolved tt))) sample_world in
  totalCount (state w') = (totalCount (state sample_world) + 1)%Z
  /\ completedCount (state w') = completedCount (state sample_world)
  /\ remainingCount (state w') = (remainingCount (state sample_world) + 1)%Z
  /\ highPriorityCount (state w') = (highPriorityCount (state sample_world) + 0)%Z.
Proof.
  apply (create_moves_counters (sample_env (Resolved tt)) sample_world sample_user tt
           ltac:(discriminate) eq_refl eq_refl).
  intros t [<- | [<- | []]]; discriminate.
Defined.

(** ** What every operation leaves in the trace *)

Lemma loadTodos_signed_out_run settles w :
  user (state w) = None ->
  loadTodos settles w =
  (Normal tt,
   mkWorld
     (with_isLoading false (with_isLoading true (state w)))
     (trace w ++ [EvToastError "Failed to load todos"])
     (console w ++ [("Error loading todos:",
                     TypeError "Cannot read properties of null (reading 'id')")])).
Proof.
  intros Hu. unfold loadTodos. cbv [bind Monad_M get_state]. rewrite Hu.
  reflexivity.
Qed.

(** Every action completes normally and extends the trace by its
    expected events. *)
Lemma perform_run (a : Action) (w : World) :
  exists st errors,
    perform a w = (Normal tt, mkWorld st (trace w ++ expected_events a w) errors).
Proof.
  destruct a as [u | settles | v | v | v | v | env | settles id c | settles id];
    cbn [perform expected_events];
    try (do 2 eexists; cbv [setUser setNewTodo setNewDescription setSearchTerm
                            setSelectedCategory modify_state];
         rewrite app_nil_r; reflexivity).
  - (* Load *)
    destruct (user (state w)) as [u |] eqn:Hu.
    + destruct settles as [response | e].
      * rewrite (loadTodos_resolved response w u Hu). eauto.
      * rewrite (loadTodos_rejected e w u Hu). eauto.
    + rewrite loadTodos_signed_out_run by assumption. eauto.
  - (* Add *)
    destruct (string_dec (JsString.trim (newTodo (state w))) "") as [Hb | Hb].
    { rewrite addTodo_blank by assumption. rewrite Hb. simpl.
      rewrite app_nil_r. destruct w. eauto. }
    rewrite (proj2 (truthy_nonempty _) Hb).
    destruct (user (state w)) as [u |] eqn:Hu.
    2: { rewrite addTodo_signed_out by assumption. eauto. }
    destruct (create_settles env) as [x | e] eqn:Hc.
    + rewrite (addTodo_resolved env w u x) by assumption. eauto.
    + rewrite (addTodo_rejected env w u e) by assumption. eauto.
  - (* Toggle *)
    destruct (string_dec id "") as [-> | Hid].
    { rewrite toggleTodo_empty_id. simpl. rewrite app_nil_r. destruct w. eauto. }
    rewrite (proj2 (truthy_nonempty _) Hid).
    destruct settles as [x | e].
    + rewrite toggleTodo_resolved by assumption. eauto.
    + rewrite toggleTodo_rejected by assumption. eauto.
  - (* Delete *)
    destruct settles as [x | e].
    + rewrite deleteTodo_resolved. eauto.
    + rewrite deleteTodo_rejected. eauto.
Qed.

(** X7. No handler lets an error escape, and each leaves a fixed record
    in the trace: whatever the state and however the collaborators settle,
    an action completes normally and appends exactly its expected events,
    in order. For the handlers that pass their guard these are the
    classifier calls (creation only), then at most one store call, then
    exactly one toast, except that a load that succeeds shows no toast;
    typing, selecting and the authentication callback append nothing. *)
Theorem every_action_completes_with_expected_events (a : Action) (w : World) :
  eval (perform a) w = Normal tt
  /\ appended w (exec (perform a) w) (expected_events a w).
Proof.
  unfold eval, exec, appended.
  destruct (perform_run a w) as (st & errors & ->). split; reflexivity.
Qed.

Lemma perform_appends (a : Action) (w : World) :
  appended w (exec (perform a) w) (expected_events a w).
Proof.
  unfold exec, appended. destruct (perform_run a w) as (st & errors & ->).
  reflexivity.
Qed.

Lemma store_calls_expected (a : Action) (w : World) :
  store_calls (expected_events a w) = expected_store_calls a w.
Proof.
  destruct a as [u | settles | v | v | v | v | env | settles id c | settles id];
    cbn [expected_events expected_store_calls]; try reflexivity.
  - destruct (user (state w)); [destruct settles |]; reflexivity.
  - destruct (JsString.truthy (JsString.trim (newTodo (state w)))); [| reflexivity].
    destruct (user (state w)); [destruct (create_settles env) |]; reflexivity.
  - destruct (JsString.truthy id); [destruct settles |]; reflexivity.
  - destruct settles; reflexivity.
Qed.

(** X8. Each operation issues at most one store call, of its own kind,
    and which one does not depend on how the call settles: a load lists
    for the signed-in user and calls nothing when nobody is signed in; a
    creation calls [create] when the title is not blank and a user is
    signed in, else nothing; a toggle calls [update] unless the id is
    empty; a delete always calls [delete], the empty id included; typing,
    selecting and the authentication callback call nothing. *)
Theorem one_store_call_per_operation (a : Action) (w : World) :
  exists events,
    appended w (exec (perform a) w) events
    /\ store_calls events = expected_store_calls a w
    /\ length (store_calls events) <= 1.
Proof.
  exists (expected_events a w).
  split; [apply perform_appends |].
  split; [apply store_calls_expected |].
  rewrite store_calls_expected.
  destruct a as [u | settles | v | v | v | v | env | settles id c | settles id];
    cbn [expected_store_calls]; simpl; try lia.
  - destruct (user (state w)); simpl; lia.
  - destruct (JsString.truthy (JsString.trim (newTodo (state w)))); [| simpl; lia].
    destruct (user (state w)); simpl; lia.
  - destruct (JsString.truthy id); simpl; lia.
Qed.

(** Checks [scoped_to] event by event on an explicit list. *)
Ltac scoped_events :=
  repeat (apply Forall_cons || apply Forall_nil);
  simpl; try exact I; try (eexists; split; reflexivity).

(** X9. Store calls are made on behalf of the signed-in user only: a list
    call names the id of the user of the current state, and the record sent
    by a create call has that id as its owner. *)
Theorem store_calls_scoped_to_user (a : Action) (w : World) :
  exists events,
    appended w (exec (perform a) w) events
    /\ Forall (scoped_to (user (state w))) events.
Proof.
  exists (expected_events a w). split; [apply perform_appends |].
  destruct a as [u | settles | v | v | v | v | env | settles id c | settles id];
    cbn [expected_events]; try apply Forall_nil.
  - destruct (user (state w)) as [u |]; [destruct settles |]; scoped_events.
  - destruct (JsString.truthy (JsString.trim (newTodo (state w)))); [| constructor].
    apply Forall_app. split; [unfold classifier_calls; scoped_events |].
    destruct (user (state w)) as [u |]; [destruct (create_settles env) |];
      scoped_events.
  - destruct (JsString.truthy id); [destruct settles |]; scoped_events.
  - destruct settles; scoped_events.
Qed.

(** ** The busy flags *)

(** X10. The busy flags never stick: after [loadTodos] the flag
    [isLoading] is off however the call settled and whether or not a user
    was signed in, and after [addTodo] the flag [isAddingTodo] is off
    whenever the title was not blank, whether the creation succeeded,
    the store rejected it, or nobody was signed in. *)
Theorem busy_flags_cleared :
  (forall settles w, isLoading (state (exec (loadTodos settles) w)) = false)
  /\ (forall env w,
        JsString.trim (newTodo (state w)) <> "" ->
        isAddingTodo (state (exec (addTodo env) w)) = false).
Proof.
  unfold exec. split.
  - intros settles w. destruct (user (state w)) as [u |] eqn:Hu.
    + destruct settles as [response | e].
      * rewrite (loadTodos_resolved response w u Hu). reflexivity.
      * rewrite (loadTodos_rejected e w u Hu). reflexivity.
    + rewrite loadTodos_signed_out_run by assumption. reflexivity.
  - intros env w Hb. destruct (user (state w)) as [u |] eqn:Hu.
    + destruct (create_settles env) as [x | e] eqn:Hc.
      * rewrite (addTodo_resolved env w u x) by assumption. reflexivity.
      * rewrite (addTodo_rejected env w u e) by assumption. reflexivity.
    + rewrite addTodo_signed_out by assumption. reflexivity.
Qed.

Lemma busy_flags_cleared_witness :
  isAddingTodo (state (exec (addTodo (sample_env (Rejected (Rejection "offline"))))
                            sample_world)) = false.
Proof.
  apply (proj2 busy_flags_cleared). discriminate.
Defined.

(** ** A load that fails *)

(** X11. A load that fails leaves the collection as it was and shows the
    toast "Failed to load todos": when the list call rejects (the call
    having been issued for the signed-in user), and when nobody is signed
    in, in which case no store call is issued at all. The collection shown
    after a failed load is thus whatever was in memory before. *)
Theorem failed_load_keeps_collection :
  (forall e w u,
      user (state w) = Some u ->
      let w' := exec (loadTodos (Rejected e)) w in
      todos (state w') = todos (state w)
      /\ appended w w' [EvStore (DbList (User.id u));
                        EvToastError "Failed to load todos"])
  /\ (forall settles w,
      user (state w) = None ->
      let w' := exec (loadTodos settles) w in
      todos (state w') = todos (state w)
      /\ appended w w' [EvToastError "Failed to load todos"]).
Proof.
  unfold exec, appended. split.
  - intros e w u Hu. rewrite (loadTodos_rejected e w u Hu). split; reflexivity.
  - intros settles w Hu. rewrite loadTodos_signed_out_run by assumption.
    split; reflexivity.
Qed.

Lemma failed_load_keeps_collection_witness :
  todos (state (exec (loadTodos (Rejected (Rejection "offline"))) sample_world))
  = todos (state sample_world)
  /\ todos (state (exec (loadTodos (Resolved sample_response))
                        (exec (onAuthStateChanged None) sample_world)))
     = todos (state sample_world).
Proof.
  destruct failed_load_keeps_collection as [Hrej Hout]. split.
  - apply (Hrej (Rejection "offline") sample_world sample_user). reflexivity.
  - apply (Hout (Resolved sample_response)
             (exec (onAuthStateChanged None) sample_world)).
    reflexivity.
Defined.

(** ** What a load keeps, and in which order *)

Section MapOrder.
Context {V : Type}.
Implicit Types (m : @JsMap.t V) (k : jsprim) (v : V).

Lemma set_new_key m k v :
  is_string k -> ~ In k (JsMap.keys m) -> JsMap.set k v m = m ++ [(k, v)].
Proof.
  intros [s ->]. induction m as [| [k' v'] m IH]; simpl; intros Hnot; [reflexivity |].
  destruct (same_value_zero k' (PString s)) eqn:E.
  - apply same_value_zero_string in E. tauto.
  - f_equal. apply IH. tauto.
Qed.

(** Entries with pairwise distinct string keys are stored as they come. *)
Lemma fold_set_distinct (entries : list (jsprim * V)) :
  Forall (fun e => is_string (fst e)) entries ->
  forall m, NoDup (JsMap.keys m ++ map fst entries) ->
    fold_left (fun m e => JsMap.set (fst e) (snd e) m) entries m = m ++ entries.
Proof.
  induction 1 as [| [k v] entries Hk _ IH]; simpl; intros m Hnd.
  - rewrite app_nil_r. reflexivity.
  - simpl in Hk. assert (~ In k (JsMap.keys m)) as Hnew.
    { apply NoDup_remove_2 in Hnd. rewrite in_app_iff in Hnd. tauto. }
    rewrite (set_new_key m k v Hk Hnew), IH.
    + rewrite <- app_assoc. reflexivity.
    + unfold JsMap.keys in *. rewrite map_app, <- app_assoc. exact Hnd.
Qed.

Lemma set_entries_distinct m k v e :
  is_string k -> NoDup (JsMap.keys m) ->
  In e (JsMap.set k v m) -> e = (k, v) \/ (In e m /\ fst e <> k).
Proof.
  intros [s ->]. induction m as [| [k' v'] m IH]; simpl; intros Hnd.
  - intros [<- | []]. left; reflexivity.
  - apply NoDup_cons_iff in Hnd. destruct Hnd as [Hnot Hnd].
    destruct (same_value_zero k' (PString s)) eqn:E; simpl.
    + apply same_value_zero_string in E. subst k'.
      intros [<- | Hin]; [auto |]. right. split; [auto |].
      intros Hk. apply Hnot. rewrite <- Hk. apply in_map. exact Hin.
    + assert (k' <> PString s) as N.
      { intros H. apply same_value_zero_string in H. congruence. }
      intros [<- | Hin]; [right; auto |].
      destruct (IH Hnd Hin) as [-> | [H1 H2]]; auto.
  Qed.

(** An entry of the folded map is the last of the folded entries with
    its key, or an entry of the initial map whose key was not set again. *)
Lemma fold_set_last (entries : list (jsprim * V)) :
  Forall (fun e => is_string (fst e)) entries ->
  forall m e, NoDup (JsMap.keys m) ->
    In e (fold_left (fun m e => JsMap.set (fst e) (snd e) m) entries m) ->
    (exists before after,
        entries = before ++ e :: after /\ ~ In (fst e) (map fst after))
    \/ (In e m /\ ~ In (fst e) (map fst entries)).
Proof.
  induction 1 as [| [k v] entries Hk _ IH]; simpl; intros m e Hnd He; [auto |].
  simpl in Hk.
  destruct (IH _ e (set_keeps_NoDup m k v Hk Hnd) He)
    as [(before & after & -> & Hlast) | [Hin Hnot]].
  - left. exists ((k, v) :: before), after. auto.
  - destruct (set_entries_distinct m k v e Hk Hnd Hin) as [-> | [Hm Hne]].
    + left. exists [], entries. auto.
    + right. split; [exact Hm |]. intros [H | H]; [congruence | contradiction].
Qed.
End MapOrder.

Lemma unique_by_id_distinct (l : list Todo.t) :
  Forall (fun t => is_string (Todo.id t)) l ->
  NoDup (map Todo.id l) ->
  unique_by_id l = l.
Proof.
  intros Hs Hnd. unfold unique_by_id, JsMap.of_entries.
  rewrite fold_set_distinct.
  - unfold JsMap.values. simpl. rewrite map_map. simpl. apply map_id.
  - rewrite Forall_map. exact Hs.
  - simpl. rewrite map_map. simpl. exact Hnd.
Qed.

Lemma filter_all {A} (p : A -> bool) (l : list A) :
  Forall (fun x => p x = true) l -> filter p l = l.
Proof.
  induction 1 as [| x l Hx _ IH]; simpl; [reflexivity |].
  rewrite Hx, IH. reflexivity.
Qed.

Lemma normalized_well_formed (delivered : list Todo.t) :
  Forall (fun t => valid_id t = true) delivered ->
  NoDup (map Todo.id delivered) ->
  normalized (JArray delivered) = delivered.
Proof.
  intros Hv Hnd. unfold normalized.
  change (ensureArray0 (JArray delivered)) with delivered.
  rewrite (filter_all valid_id delivered Hv).
  apply unique_by_id_distinct; [| exact Hnd].
  eapply Forall_impl; [| exact Hv]. intros t Ht.
  apply valid_id_spec in Ht. destruct Ht as (s & Hs & _). exists s. exact Hs.
Qed.

Lemma normalized_valid (response : jsvalue Todo.t) :
  Forall (fun t => valid_id t = true) (normalized response)
  /\ NoDup (map Todo.id (normalized response)).
Proof.
  unfold normalized.
  assert (Forall (fun t => is_string (Todo.id t))
            (filter valid_id (ensureArray0 response))) as Hs.
  { apply Forall_forall. intros t Ht. apply filter_In in Ht.
    destruct Ht as [_ Hv]. apply valid_id_spec in Hv.
    destruct Hv as (s & Hs & _). exists s. exact Hs. }
  destruct (unique_by_id_spec _ Hs) as (Hnd & _ & Hent).
  split; [| exact Hnd].
  apply Forall_forall. intros t Ht. apply Hent in Ht. apply filter_In in Ht. tauto.
Qed.

Lemma loadTodos_resolved_todos response w u :
  user (state w) = Some u ->
  todos (state (exec (loadTodos (Resolved response)) w)) = normalized response.
Proof.
  intros Hu. unfold exec. rewrite (loadTodos_resolved response w u Hu). reflexivity.
Qed.

(** X12. A successful load takes a well-formed response as it is: when the
    delivered records all have a non-blank string id and no two share an
    id, the collection after the load is the delivered sequence, same
    records in the same order, whatever was in memory before. Hence
    loading what a load produced changes nothing. *)
Theorem load_takes_well_formed_response_as_is :
  (forall (delivered : list Todo.t) (w : World) (u : User.t),
      user (state w) = Some u ->
      Forall (fun t => valid_id t = true) delivered ->
      NoDup (map Todo.id delivered) ->
      todos (state (exec (loadTodos (Resolved (JArray delivered))) w)) = delivered)
  /\ (forall (response : jsvalue Todo.t) (w w2 : World) (u u2 : User.t),
      user (state w) = Some u ->
      user (state w2) = Some u2 ->
      let loaded := todos (state (exec (loadTodos (Resolved response)) w)) in
      todos (state (exec (loadTodos (Resolved (JArray loaded))) w2)) = loaded).
Proof.
  split.
  - intros delivered w u Hu Hv Hnd.
    rewrite (loadTodos_resolved_todos _ w u Hu).
    apply normalized_well_formed; assumption.
  - intros response w w2 u u2 Hu Hu2 loaded. subst loaded.
    rewrite (loadTodos_resolved_todos _ w2 u2 Hu2),
      (loadTodos_resolved_todos _ w u Hu).
    destruct (normalized_valid response) as [Hv Hnd].
    apply normalized_well_formed; assumption.
Qed.

Lemma load_takes_well_formed_response_as_is_witness :
  todos (state (exec (loadTodos
                        (Resolved (JArray [sample_task (PString "b") "second" "home" false;
                                           sample_task (PString "a") "first" "work" true])))
                     sample_world))
  = [sample_task (PString "b") "second" "home" false;
     sample_task (PString "a") "first" "work" true].
Proof.
  apply (proj1 load_takes_well_formed_response_as_is _ sample_world sample_user eq_refl).
  - repeat constructor.
  - repeat constructor; simpl; intuition discriminate.
Defined.

Lemma filter_eq_split {A} (p : A -> bool) (l : list A) before x after :
  filter p l = before ++ x :: after ->
  exists l1 l2, l = l1 ++ x :: l2 /\ filter p l1 = before /\ filter p l2 = after.
Proof.
  revert before. induction l as [| a l IH]; simpl; intros before H.
  - destruct before; discriminate.
  - destruct (p a) eqn:Hp.
    + destruct before as [| b before]; simpl in H; injection H as Ha Hl.
      * subst a. exists [], l. auto.
      * subst b. destruct (IH _ Hl) as (l1 & l2 & -> & H1 & H2).
        exists (a :: l1), l2. simpl. rewrite Hp, H1. auto.
    + destruct (IH _ H) as (l1 & l2 & -> & H1 & H2).
      exists (a :: l1), l2. simpl. rewrite Hp. auto.
Qed.

Lemma valid_id_by_id (t t' : Todo.t) :
  Todo.id t' = Todo.id t -> valid_id t' = valid_id t.
Proof. unfold valid_id. intros ->. reflexivity. Qed.

(** X13. When the store delivers several records with one id, the load
    keeps the last of them: every task of the loaded collection is a
    delivered record after which no delivered record has the same id. *)
Theorem load_keeps_last_record_of_an_id (response : jsvalue Todo.t) (w : World)
  (u : User.t) (t : Todo.t) :
  user (state w) = Some u ->
  In t (todos (state (exec (loadTodos (Resolved response)) w))) ->
  exists before after,
    ensureArray0 response = before ++ t :: after
    /\ forall t', In t' after -> Todo.id t' <> Todo.id t.
Proof.
  intros Hu Hin. rewrite (loadTodos_resolved_todos response w u Hu) in Hin.
  unfold normalized, unique_by_id, JsMap.values in Hin.
  set (delivered := ensureArray0 response) in *.
  set (entries := map (fun t => (Todo.id t, t)) (filter valid_id delivered)) in *.
  assert (Forall (fun e => is_string (fst e)) entries) as Hs.
  { unfold entries. rewrite Forall_map. apply Forall_forall. intros x Hx.
    apply filter_In in Hx. destruct Hx as [_ Hv]. apply valid_id_spec in Hv.
    destruct Hv as (s & Hid & _). exists s. exact Hid. }
  apply in_map_iff in Hin. destruct Hin as (e & <- & He).
  destruct (fold_set_last entries Hs [] e (NoDup_nil _) He)
    as [(ebefore & eafter & Hsplit & Hlast) | [[] _]].
  unfold entries in Hsplit. apply map_eq_app in Hsplit.
  destruct Hsplit as (vbefore & vrest & Hvalid & _ & Hrest).
  apply map_eq_cons in Hrest. destruct Hrest as (t & vafter & -> & <- & <-).
  simpl in *.
  destruct (filter_eq_split _ _ _ _ _ Hvalid) as (before & after & Hd & _ & Hafter).
  exists before, after. split; [exact Hd |].
  intros t' Ht' Hid.
  assert (valid_id t = true) as Hv.
  { assert (In t (filter valid_id delivered)) as H
        by (rewrite Hvalid; apply in_elt).
    apply filter_In in H. tauto. }
  apply Hlast. rewrite map_map. simpl. rewrite <- Hid.
  apply in_map. rewrite <- Hafter. apply filter_In. split; [exact Ht' |].
  rewrite (valid_id_by_id t t' Hid). exact Hv.
Qed.

Lemma load_keeps_last_record_of_an_id_witness :
  exists before after,
    ensureArray0 sample_response
    = before ++ sample_task (PString "a") "first again" "work" true :: after
    /\ forall t', In t' after ->
                  Todo.id t' <> Todo.id (sample_task (PString "a") "first again" "work" true).
Proof.
  apply (load_keeps_last_record_of_an_id sample_response sample_world sample_user).
  - reflexivity.
  - left. reflexivity.
Defined.

(** ** The record sent to the store and the record shown *)

(** X14. On a successful creation the record sent to the store and the
    task put at the front of the collection agree on every field except
    [created_at], which each takes from a clock read of its own; the two
    are the same record exactly when the two reads gave the same time. *)
Theorem created_task_matches_persisted_record (env : AddEnv) (w : World)
  (u : User.t) (x : unit) :
  JsString.trim (newTodo (state w)) <> "" ->
  user (state w) = Some u ->
  create_settles env = Resolved x ->
  let w' := exec (addTodo env) w in
  exists persisted shown rest events,
    appended w w' events
    /\ store_calls events = [EvStore (DbCreate persisted)]
    /\ todos (state w') = shown :: rest
    /\ same_but_created_at persisted shown
    /\ Todo.created_at persisted = now_persisted env
    /\ Todo.created_at shown = now_created env
    /\ (persisted = shown <-> now_persisted env = now_created env).
Proof.
  intros Hb Hu Hc w'. subst w'.
  exists (persistedTodo env (state w) (User.id u)),
         (createdTodo env (state w) (User.id u)),
         (without (randomUUID env) (todos (state w))),
         (expected_events (Add env) w).
  split; [apply (perform_appends (Add env) w) |].
  split.
  { rewrite store_calls_expected. cbn [expected_store_calls].
    rewrite (proj2 (truthy_nonempty _) Hb), Hu. reflexivity. }
  split; [apply (addTodo_resolved_todos env w u x); assumption |].
  split; [repeat split |]. split; [reflexivity |]. split; [reflexivity |].
  unfold persistedTodo, createdTodo. split.
  - intros H. injection H as H. exact H.
  - intros ->. reflexivity.
Qed.

Lemma created_task_matches_persisted_record_witness :
  exists persisted shown rest events,
    appended sample_world (exec (addTodo (sample_env (Resolved tt))) sample_world) events
    /\ store_calls events = [EvStore (DbCreate persisted)]
    /\ todos (state (exec (addTodo (sample_env (Resolved tt))) sample_world))
       = shown :: rest
    /\ same_but_created_at persisted shown
    /\ Todo.created_at persisted = "2024-01-02T10:00:00.000Z"
    /\ Todo.created_at shown = "2024-01-02T10:00:00.001Z"
    /\ (persisted = shown <->
        "2024-01-02T10:00:00.000Z" = "2024-01-02T10:00:00.001Z").
Proof.
  apply (created_task_matches_persisted_record (sample_env (Resolved tt))
           sample_world sample_user tt);
    [discriminate | reflexivity | reflexivity].
Defined.

(** ** Badges *)

Lemma find_by_id_found (table : list Category.t) (label : string) (c : Category.t) :
  find_by_id table label = Some c -> Category.id c = label /\ In c table.
Proof.
  unfold find_by_id. intros H. apply find_some in H.
  destruct H as [Hin Heq]. apply String.eqb_eq in Heq. auto.
Qed.

(** X15. A badge shows the table entry of the task's own label, and it is
    missing exactly when the label is outside the enum: the category badge
    is rendered if and only if the category is one of the seven categories,
    the priority badge if and only if the priority is one of the three.
    A task created by [addTodo] therefore always gets both badges. *)
Theorem badges_follow_the_enums :
  (forall t c, categoryBadge t = Some c -> Category.id c = Todo.category t)
  /\ (forall t c, priorityBadge t = Some c -> Category.id c = Todo.priority t)
  /\ (forall t, categoryBadge t <> None <-> In (Todo.category t) category_enum)
  /\ (forall t, priorityBadge t <> None <-> In (Todo.priority t) priority_enum)
  /\ (forall env w u x,
        JsString.trim (newTodo (state w)) <> "" ->
        user (state w) = Some u ->
        create_settles env = Resolved x ->
        exists shown rest,
          todos (state (exec (addTodo env) w)) = shown :: rest
          /\ categoryBadge shown <> None /\ priorityBadge shown <> None).
Proof.
  assert (forall table enum label,
             map Category.id table = enum ->
             (find_by_id table label <> None <-> In label enum)) as Hfind.
  { intros table enum label <-. rewrite <- find_by_id_some. split.
    - intros H. destruct (find_by_id table label) as [c |]; [eauto | congruence].
    - intros [c ->]. discriminate. }
  unfold categoryBadge, priorityBadge.
  split; [intros t c H; apply (find_by_id_found _ _ _ H) |].
  split; [intros t c H; apply (find_by_id_found _ _ _ H) |].
  split; [intros t; apply Hfind; reflexivity |].
  split; [intros t; apply Hfind; reflexivity |].
  intros env w u x Hb Hu Hc.
  exists (createdTodo env (state w) (User.id u)),
         (without (randomUUID env) (todos (state w))).
  split; [apply (addTodo_resolved_todos env w u x); assumption |].
  split.
  - apply (proj2 (Hfind categories category_enum _ eq_refl)).
    cbn [createdTodo Todo.category]. apply label_or_default_in. simpl. tauto.
  - apply (proj2 (Hfind priorities priority_enum _ eq_refl)).
    cbn [createdTodo Todo.priority]. apply label_or_default_in. simpl. tauto.
Qed.

Lemma badges_follow_the_enums_witness :
  categoryBadge (sample_task (PString "a") "Call the bank" "work" false) <> None
  /\ exists shown rest,
       todos (state (exec (addTodo (sample_env (Resolved tt))) sample_world))
       = shown :: rest
       /\ categoryBadge shown <> None /\ priorityBadge shown <> None.
Proof.
  destruct badges_follow_the_enums as (_ & _ & Hcat & _ & Hnew). split.
  - apply Hcat. simpl. tauto.
  - apply (Hnew (sample_env (Resolved tt)) sample_world sample_user tt);
      [discriminate | reflexivity | reflexivity].
Defined.

(** ** The rendered list *)

Lemma includes_empty (s : string) : JsString.includes s "" = true.
Proof. destruct s; reflexivity. Qed.

Lemma filteredTodos_unfiltered (s : AppState) :
  searchTerm s = "" -> selectedCategory s = "all" -> filteredTodos s = todos s.
Proof.
  intros Ht Hc. unfold filteredTodos. rewrite safeTodos_todos, Ht, Hc.
  apply filter_all. apply Forall_forall. intros t _.
  unfold matches. cbn [JsString.toLowerCase]. rewrite includes_empty. reflexivity.
Qed.

Lemma js_length_zero {A} (l : list A) : Z.eqb (js_length l) 0 = true <-> l = [].
Proof.
  unfold js_length. destruct l; simpl; split; intros H;
    try reflexivity; try discriminate.
Qed.

(** The cases of the list region of the main view. *)
Lemma todosList_cases (s : AppState) :
  (searchTerm s = "" -> selectedCategory s = "all" -> filteredTodos s = todos s)
  /\ (todosList s = ListEmpty "No tasks yet. Add your first task above!" <->
      isLoading s = false /\ todos s = []
      /\ searchTerm s = "" /\ selectedCategory s = "all")
  /\ (todosList s = ListEmpty "No matching tasks found" <->
      isLoading s = false /\ filteredTodos s = []
      /\ (searchTerm s <> "" \/ selectedCategory s <> "all"))
  /\ (forall items,
        todosList s = ListItems items <->
        isLoading s = false /\ items = filteredTodos s /\ items <> []).
Proof.
  split; [apply filteredTodos_unfiltered |].
  pose proof (filteredTodos_unfiltered s) as Hall.
  unfold todosList.
  destruct (isLoading s).
  { repeat split; try discriminate; intros; intuition discriminate. }
  destruct (Z.eqb (js_length (filteredTodos s)) 0) eqn:Hz.
  - apply js_length_zero in Hz.
    destruct (searchTerm s) as [| c term] eqn:Hterm; cbn [JsString.truthy orb].
    + destruct (String.eqb_spec (selectedCategory s) "all") as [Hcat | Hcat];
        cbn [negb].
      * rewrite (Hall eq_refl Hcat) in Hz.
        repeat split; try discriminate; try assumption; try tauto;
          intros; intuition (try discriminate; try congruence).
      * repeat split; try discriminate; try assumption; try tauto;
          intros; intuition (try discriminate; try congruence).
    + repeat split; try discriminate; try assumption;
        try (left; discriminate);
        intros; intuition (try discriminate; try congruence).
  - assert (filteredTodos s <> []) as Hne.
    { intros H. apply js_length_zero in H. congruence. }
    split; [split; [discriminate |] |].
    { intros (_ & Hempty & Ht & Hc). rewrite (Hall Ht Hc) in Hne. contradiction. }
    split; [split; [discriminate | tauto] |].
    intros items. split.
    + intros H. injection H as <-. auto.
    + intros (_ & -> & _). reflexivity.
Qed.

Lemma renderedList_some (s : AppState) (v : TodosList) :
  renderedList s = Some v <-> user s <> None /\ todosList s = v.
Proof.
  unfold renderedList. destruct (user s) as [u |]; split.
  - intros H. injection H as <-. split; [discriminate | reflexivity].
  - intros [_ ->]. reflexivity.
  - discriminate.
  - intros [H _]. contradiction.
Qed.

(** X16. What the list region shows. When nobody is signed in the
    component renders the sign-in card and no list region at all. When a
    user is signed in: the spinner while loading; the message "No tasks
    yet. Add your first task above!" exactly when nothing is loading, no
    filter is active and the collection is empty; the message "No matching
    tasks found" exactly when nothing is loading, a search term or a
    category is set, and no task matches; and items exactly when nothing
    is loading and the filtered view is not empty, the items being the
    filtered view. With an empty search term and the filter "all" the
    filtered view is the whole collection. *)
Theorem list_region_cases (s : AppState) :
  (renderedList s = None <-> user s = None)
  /\ (renderedList s = Some ListLoading <-> user s <> None /\ isLoading s = true)
  /\ (searchTerm s = "" -> selectedCategory s = "all" -> filteredTodos s = todos s)
  /\ (renderedList s = Some (ListEmpty "No tasks yet. Add your first task above!") <->
      user s <> None /\ isLoading s = false /\ todos s = []
      /\ searchTerm s = "" /\ selectedCategory s = "all")
  /\ (renderedList s = Some (ListEmpty "No matching tasks found") <->
      user s <> None /\ isLoading s = false /\ filteredTodos s = []
      /\ (searchTerm s <> "" \/ selectedCategory s <> "all"))
  /\ (forall items,
        renderedList s = Some (ListItems items) <->
        user s <> None /\ isLoading s = false
        /\ items = filteredTodos s /\ items <> []).
Proof.
  destruct (todosList_cases s) as (Hall & Hnone & Hmiss & Hitems).
  split.
  { unfold renderedList. destruct (user s); split; congruence. }
  split.
  { rewrite renderedList_some. unfold todosList.
    destruct (isLoading s); [tauto |].
    destruct (Z.eqb (js_length (filteredTodos s)) 0);
      split; intros [_ H]; discriminate. }
  split; [exact Hall |].
  split; [rewrite renderedList_some, Hnone; tauto |].
  split; [rewrite renderedList_some, Hmiss; tauto |].
  intros items. rewrite renderedList_some, Hitems. tauto.
Qed.

Lemma list_region_cases_witness :
  filteredTodos (state sample_world) = todos (state sample_world)
  /\ renderedList initialState = None
  /\ renderedList (with_user (Some sample_user) initialState)
     = Some (ListEmpty "No tasks yet. Add your first task above!")
  /\ renderedList (with_searchTerm "zebra" (state sample_world))
     = Some (ListEmpty "No matching tasks found").
Proof.
  split; [| split; [| split]].
  - apply (proj1 (proj2 (proj2 (list_region_cases (state sample_world)))));
      reflexivity.
  - apply (proj1 (list_region_cases initialState)). reflexivity.
  - apply (proj1 (proj2 (proj2 (proj2
             (list_region_cases (with_user (Some sample_user) initialState)))))).
    repeat split. discriminate.
  - apply (proj1 (proj2 (proj2 (proj2 (proj2
             (list_region_cases (with_searchTerm "zebra" (state sample_world)))))))).
    split; [discriminate |]. split; [reflexivity |]. split; [reflexivity |].
    left. discriminate.
Defined.

Lemma todosList_items (s : AppState) (items : list Todo.t) :
  todosList s = ListItems items -> items = filteredTodos s.
Proof.
  unfold todosList. destruct (isLoading s); [discriminate |].
  destruct (Z.eqb (js_length (filteredTodos s)) 0); [discriminate |].
  intros H. injection H as <-. reflexivity.
Qed.

(** X17. In every reachable state the items rendered have pairwise
    distinct keys ([key={todo.id}]), each a non-empty string. *)
Theorem rendered_keys_distinct (w : World) (items : list Todo.t) :
  reachable w ->
  todosList (state w) = ListItems items ->
  NoDup (map Todo.id items)
  /\ Forall (fun t => exists k, Todo.id t = PString k /\ k <> "") items.
Proof.
  intros Hreach Hview. apply todosList_items in Hview. subst items.
  destruct (reachable_collection_ok w Hreach) as [Hnd Hids].
  unfold filteredTodos. rewrite safeTodos_todos. split.
  - apply filter_keeps_ids_unique. exact Hnd.
  - apply ids_present_filter. exact Hids.
Qed.

Lemma rendered_keys_distinct_witness :
  NoDup (map Todo.id (todos (state sample_world)))
  /\ Forall (fun t => exists k, Todo.id t = PString k /\ k <> "")
            (todos (state sample_world)).
Proof.
  exact (rendered_keys_distinct sample_world (todos (state sample_world))
           sample_world_reachable eq_refl).
Defined.

(** ** Narrowing the view *)

Lemma string_app_assoc (a b c : string) :
  String.append (String.append a b) c = String.append a (String.append b c).
Proof. induction a as [| x a IH]; simpl; [reflexivity | rewrite IH; reflexivity]. Qed.

Lemma occurs_in_trans (a b c : string) :
  occurs_in a b -> occurs_in b c -> occurs_in a c.
Proof.
  intros (p1 & q1 & ->) (p2 & q2 & ->).
  exists (String.append p2 p1), (String.append q1 q2).
  rewrite !string_app_assoc. reflexivity.
Qed.

Lemma matches_longer_term (term term' category : string) (t : Todo.t) :
  occurs_in (JsString.toLowerCase term) (JsString.toLowerCase term') ->
  matches term' category t = true -> matches term category t = true.
Proof.
  intros Hocc. unfold matches. rewrite !andb_true_iff, !orb_true_iff.
  rewrite !includes_occurs.
  intros [[H | H] Hc]; (split; [| exact Hc]);
    [left | right]; eapply occurs_in_trans; eassumption.
Qed.

(** X18. Refining a filter never adds a task to the view. A task visible
    under a search term is visible under every term whose lower-cased
    form occurs in the lower-cased form of that term, and a task visible
    under a selected category is visible under "all". The comparison is
    between the lower-cased terms because that is what the filter tests;
    no property of lower-casing is used. *)
Theorem refining_narrows_the_view (s : AppState) (t : Todo.t) :
  (forall term',
      occurs_in (JsString.toLowerCase (searchTerm s)) (JsString.toLowerCase term') ->
      In t (filteredTodos (with_searchTerm term' s)) ->
      In t (filteredTodos s))
  /\ (forall category, In t (filteredTodos (with_selectedCategory category s)) ->
                       In t (filteredTodos (with_selectedCategory "all" s))).
Proof.
  unfold filteredTodos. split.
  - intros term' Hocc. rewrite !filter_In. cbn [with_searchTerm searchTerm selectedCategory].
    intros [Hin Hm]. split; [exact Hin |].
    eapply matches_longer_term; eassumption.
  - intros category. rewrite !filter_In.
    cbn [with_selectedCategory searchTerm selectedCategory].
    intros [Hin Hm]. split; [exact Hin |].
    unfold matches in *. apply andb_true_iff in Hm. destruct Hm as [Hs _].
    rewrite Hs. reflexivity.
Qed.

Lemma refining_narrows_the_view_witness :
  In (sample_task (PString "a") "Call the bank" "work" false)
     (filteredTodos (with_searchTerm "BAN" (state sample_world))).
Proof.
  apply (proj1 (refining_narrows_the_view
                  (with_searchTerm "BAN" (state sample_world))
                  (sample_task (PString "a") "Call the bank" "work" false))
           "The Bank").
  - exists "the ", "k". reflexivity.
  - left. reflexivity.
Defined.

(** ** Blank means white space only *)

Lemma trimStart_visible (s : string) :
  JsString.trimStart s <> "" <-> has_visible_char s.
Proof.
  unfold has_visible_char. induction s as [| c s IH]; simpl.
  - split; [congruence | intros (c & [] & _)].
  - destruct (JsString.is_whitespace c) eqn:Hc.
    + rewrite IH. split.
      * intros (x & Hx & Hv). exists x. auto.
      * intros (x & [<- | Hx] & Hv); [congruence | eauto].
    + split; [intros _; exists c; auto | discriminate].
Qed.

Lemma trimStart_head (s : string) c r :
  JsString.trimStart s = String c r -> JsString.is_whitespace c = false.
Proof.
  induction s as [| x s IH]; simpl; [discriminate |].
  destruct (JsString.is_whitespace x) eqn:Hx; [exact IH |].
  intros H. injection H as <- _. exact Hx.
Qed.

Lemma trimEnd_keeps_visible_head c r :
  JsString.is_whitespace c = false -> JsString.trimEnd (String c r) <> "".
Proof.
  intros Hc. simpl. destruct (JsString.trimEnd r); [rewrite Hc |]; discriminate.
Qed.

Lemma trim_visible (s : string) : JsString.trim s <> "" <-> has_visible_char s.
Proof.
  rewrite <- trimStart_visible. unfold JsString.trim.
  destruct (JsString.trimStart s) as [| c r] eqn:E.
  - simpl. tauto.
  - split; [discriminate |]. intros _.
    apply trimEnd_keeps_visible_head. exact (trimStart_head s c r E).
Qed.

Lemma app_not_self {A} (l r : list A) : r <> [] -> l ++ r <> l.
Proof.
  intros Hr H. apply Hr. apply (app_inv_head l). rewrite app_nil_r. exact H.
Qed.

(** X19. "Blank" means white space only, in the three places that trim:
    a delivered record passes the filter of the load exactly when its id is
    a string with at least one code unit that is not white space; [addTodo]
    leaves the world untouched exactly when the title has no such code
    unit; and the button "Add Task" is disabled exactly when the title has
    none or a creation is in flight. *)
Theorem blank_is_whitespace_only :
  (forall t, valid_id t = true <->
             exists k, Todo.id t = PString k /\ has_visible_char k)
  /\ (forall env w, exec (addTodo env) w = w <->
                    ~ has_visible_char (newTodo (state w)))
  /\ (forall s, addDisabled s = true <->
                ~ has_visible_char (newTodo s) \/ isAddingTodo s = true).
Proof.
  split; [| split].
  - intros t. rewrite valid_id_spec. split; intros (k & Hk & H); exists k;
      (split; [exact Hk | apply trim_visible; exact H]).
  - intros env w. rewrite <- trim_visible. split.
    + intros Hsame Hb.
      pose proof (perform_appends (Add env) w) as Happ.
      unfold appended in Happ. cbn [perform] in Happ. rewrite Hsame in Happ.
      cbn [expected_events] in Happ.
      rewrite (proj2 (truthy_nonempty _) Hb) in Happ.
      symmetry in Happ. revert Happ. apply app_not_self.
      unfold classifier_calls. discriminate.
    + intros Hb. unfold exec. rewrite addTodo_blank; [reflexivity |].
      destruct (string_dec (JsString.trim (newTodo (state w))) ""); tauto.
  - intros s. unfold addDisabled. rewrite orb_true_iff, negb_true_iff.
    rewrite <- trim_visible.
    destruct (JsString.trim (newTodo s)); simpl; split;
      intros [H | H]; auto; try discriminate; try (left; congruence).
    exfalso. apply H. discriminate.
Qed.

(** ** Signing in and out *)

Lemma loadEffect_signed_in settles w u :
  user (state w) = Some u ->
  exec (loadEffect settles) w = exec (loadTodos settles) w.
Proof.
  intros Hu. unfold exec, loadEffect. cbv [bind Monad_M get_state].
  rewrite Hu. reflexivity.
Qed.

(** X20. When the authentication callback reports a user and the load
    effect then runs with the store answering, the collection becomes the
    normalized response, whatever was in memory, and the one store call
    lists for that user. When it reports that nobody is signed in, the
    effect does nothing: no call, no toast, and the collection stays in
    memory as it was. *)
Theorem sign_in_loads_and_sign_out_keeps (w : World) :
  (forall u response,
      let w' := exec (loadEffect (Resolved response))
                     (exec (onAuthStateChanged (Some u)) w) in
      todos (state w') = normalized response
      /\ user (state w') = Some u
      /\ appended w w' [EvStore (DbList (User.id u))])
  /\ (forall settles,
      let w' := exec (loadEffect settles) (exec (onAuthStateChanged None) w) in
      todos (state w') = todos (state w)
      /\ user (state w') = None
      /\ trace w' = trace w).
Proof.
  split.
  - intros u response w'. subst w'.
    set (w1 := exec (onAuthStateChanged (Some u)) w).
    assert (user (state w1) = Some u) as Hu by reflexivity.
    rewrite (loadEffect_signed_in _ w1 u Hu). unfold exec, appended.
    rewrite (loadTodos_resolved response w1 u Hu). repeat split.
  - intros settles. repeat split.
Qed.

(** ** What a classifier does besides returning a label *)

(** X21. A classifier issues exactly one text-generation call, with the
    title and the description in the prompt and a limit of 50 tokens; it
    changes no state and shows no toast. It writes to the console exactly
    when it fell back because the call rejected or the answer was not a
    string; an answer that is merely outside the enum is replaced by the
    default silently. *)
Theorem classifier_side_effects (settles : outcome GenerateTextResult)
  (title description : string) (w : World) :
  (let w' := exec (categorizeTodo settles title description) w in
   state w' = state w
   /\ appended w w' [EvGenerateText (CategorizePrompt title description) 50]
   /\ (console w' = console w <->
       exists s, settles = Resolved (mkGenerated (PString s))))
  /\ (let w' := exec (prioritizeTodo settles title description) w in
      state w' = state w
      /\ appended w w' [EvGenerateText (PrioritizePrompt title description) 50]
      /\ (console w' = console w <->
          exists s, settles = Resolved (mkGenerated (PString s)))).
Proof.
  assert (forall label,
             console w ++ classifier_errors label settles = console w <->
             exists s, settles = Resolved (mkGenerated (PString s))) as Hquiet.
  { intros label. split.
    - intros H. destruct settles as [[txt] | e].
      + destruct txt as [| | b | n | s]; simpl in H;
          try (exfalso; revert H; apply app_not_self; discriminate).
        eauto.
      + exfalso. revert H. apply app_not_self. discriminate.
    - intros [s ->]. simpl. apply app_nil_r. }
  unfold exec, appended.
  rewrite categorizeTodo_run, prioritizeTodo_run. simpl.
  repeat split; apply Hquiet.
Qed.
